(** * pilot_log: certificate validity, expiry notices and currency input

    A shallow embedding of [logbook/models.py] and [logbook/views/utils.py].
    Database tables are lists of rows, querysets are lists computed from
    them, and the code that reads the wall clock, queries the tables and adds
    messages to the request runs in a small state-and-exception monad. *)

From Stdlib Require Import ZArith List String Ascii Bool Lia.
From Stdlib Require Import Sorted Permutation DecimalString.
Import ListNotations.
Local Open Scope string_scope.
Local Open Scope list_scope.
Local Open Scope Z_scope.

(** ** Python's [datetime.date] and dateutil's [relativedelta] *)

Module PyDate.

(** [datetime.date(year, month, day)]. *)
Record date := mkdate { year : Z; month : Z; day : Z }.

Definition MINYEAR : Z := 1.
Definition MAXYEAR : Z := 9999.

(** [calendar.isleap]. *)
Definition isleap (y : Z) : bool :=
  (y mod 4 =? 0) && (negb (y mod 100 =? 0) || (y mod 400 =? 0)).

(** [calendar.monthrange(y, m)[1]]: the number of days of month [m]. *)
Definition days_in_month (y m : Z) : Z :=
  if m =? 2 then (if isleap y then 29 else 28)
  else if (m =? 4) || (m =? 6) || (m =? 9) || (m =? 11) then 30
  else 31.

(** What the constructor of [date] accepts. *)
Definition wf (d : date) : bool :=
  (MINYEAR <=? year d) && (year d <=? MAXYEAR) &&
  (1 <=? month d) && (month d <=? 12) &&
  (1 <=? day d) && (day d <=? days_in_month (year d) (month d)).

(** [_days_before_year]: days before January 1st of year [y]. *)
Definition days_before_year (y : Z) : Z :=
  let p := y - 1 in p * 365 + p / 4 - p / 100 + p / 400.

(** The table [_DAYS_BEFORE_MONTH]. *)
Definition DAYS_BEFORE_MONTH (m : Z) : Z :=
  match m with
  | 1 => 0 | 2 => 31 | 3 => 59 | 4 => 90 | 5 => 120 | 6 => 151
  | 7 => 181 | 8 => 212 | 9 => 243 | 10 => 273 | 11 => 304 | 12 => 334
  | _ => -1
  end.

(** [_days_before_month]. *)
Definition days_before_month (y m : Z) : Z :=
  DAYS_BEFORE_MONTH m + (if (2 <? m) && isleap y then 1 else 0).

(** [date.toordinal]: January 1st of year 1 is day 1. *)
Definition toordinal (d : date) : Z :=
  days_before_year (year d) + days_before_month (year d) (month d) + day d.

(** Dates compare as the tuples [(year, month, day)]. *)
Definition compare (a b : date) : comparison :=
  match year a ?= year b with
  | Eq => match month a ?= month b with
          | Eq => day a ?= day b
          | c => c
          end
  | c => c
  end.

(** [a <= b], [a < b], [a >= b] and [a > b] on dates. *)
Definition leb (a b : date) : bool :=
  match compare a b with Gt => false | _ => true end.
Definition ltb (a b : date) : bool :=
  match compare a b with Lt => true | _ => false end.
Definition geb (a b : date) : bool := leb b a.
Definition gtb (a b : date) : bool := ltb b a.

(** [(a - b).days]. *)
Definition sub_days (a b : date) : Z := toordinal a - toordinal b.

(** [str(n)] for an integer. *)
Definition str_int (n : Z) : string := NilZero.string_of_int (Z.to_int n).

(** ["%0{w}d" % n] for [0 <= n]: decimal digits, zero-padded to [w]. *)
Fixpoint zeros (k : nat) : string :=
  match k with
  | O => EmptyString
  | S k' => String "0"%char (zeros k')
  end.

Definition zfill (w : nat) (n : Z) : string :=
  let s := str_int n in (zeros (w - String.length s) ++ s)%string.

(** [date.isoformat], which is also [str(date)]. *)
Definition isoformat (d : date) : string :=
  (zfill 4 (year d) ++ "-" ++ zfill 2 (month d) ++ "-" ++ zfill 2 (day d))%string.

(** [relativedelta(years=..., months=...)]; every other field keeps its
    default (no days, no time, no absolute replacement). *)
Record relativedelta := mkdelta { years : Z; months : Z }.

(** [other + relativedelta]: shift year and month, clip the day to the
    length of the month reached; [date.replace] raises [ValueError]
    ([None] here) when the year leaves [MINYEAR..MAXYEAR]. *)
Definition add (other : date) (self : relativedelta) : option date :=
  let y := year other + years self in
  let m := month other in
  let '(y, m) :=
    if months self =? 0 then (y, m)
    else
      let m := m + months self in
      if 12 <? m then (y + 1, m - 12)
      else if m <? 1 then (y - 1, m + 12)
      else (y, m) in
  let d := Z.min (days_in_month y m) (day other) in
  if (MINYEAR <=? y) && (y <=? MAXYEAR) then Some (mkdate y m d) else None.

End PyDate.

Abbreviation date := PyDate.date.

(** ** Rows of the models *)

(** [TextChoices] of [models.py]. *)
Inductive AircraftType := GLD | TMG | SEP.
Inductive FunctionType := PIC | DUAL.
Inductive LaunchType := SELF | WINCH | TOW.
Inductive SpeedUnit := KMH | KT | MPH.

(** SQL's [a = b] on a nullable column against a value: false on NULL. *)
Definition sql_eq (a : option Z) (b : Z) : bool :=
  match a with
  | Some x => x =? b
  | None => false
  end.

(** Ordering of a table: [order_by leb rows] inserts every row in front of
    the first row it is not after, so rows with equal keys keep their order
    in the table (SQL leaves that order open). *)
Section OrderBy.
Context {A : Type} (leb : A -> A -> bool).

Fixpoint insert_row (x : A) (l : list A) : list A :=
  match l with
  | [] => [x]
  | y :: l' => if leb x y then x :: y :: l' else y :: insert_row x l'
  end.

Definition order_by (l : list A) : list A := fold_right insert_row [] l.
End OrderBy.

Module Aircraft.
Record t := mk {
  id : Z;
  type : AircraftType;
  maker : string;
  model : string;
  icao_designator : string;
  registration : string;
  currency_required : bool;
  speed_unit : SpeedUnit;
  v_r : option Z;
  v_y : option Z;
  v_bg : option Z;
  v_app : option Z;
  v_ref : option Z;
  v_s : option Z;
  v_c : option Z;
  demonstrated_crosswind : option Z
}.
End Aircraft.

Module LogEntry.
(** [departure_time] and [arrival_time] are instants, in microseconds
    since the epoch; foreign keys hold the id of the row referred to;
    the blank [launch_type] is [None]. *)
Record t := mk {
  id : Z;
  aircraft : Z;
  from_aerodrome : Z;
  to_aerodrome : Z;
  departure_time : Z;
  arrival_time : Z;
  landings : Z;
  time_function : FunctionType;
  pilot : Z;
  copilot : option Z;
  launch_type : option LaunchType;
  remarks : string;
  cross_country : bool;
  night : bool;
  slots : Z
}.

(** [CheckConstraint(check=Q(arrival_time__gt=F("departure_time")))]. *)
Definition arrival_after_departure (e : t) : bool :=
  departure_time e <? arrival_time e.

(** [CheckConstraint(check=~Q(copilot=F("pilot")))]; a NULL copilot
    leaves the check unknown, which a check constraint accepts. *)
Definition copilot_not_pilot (e : t) : bool :=
  negb (sql_eq (copilot e) (pilot e)).

(** [Q(time_function=PIC) | ~Q(time_function=PIC) & Q(cross_country=False)]. *)
Definition no_pic_no_xc (e : t) : bool :=
  match time_function e with
  | PIC => true
  | DUAL => negb (cross_country e)
  end.

(** [unique=True] on a column, and the primary key: no other row of the
    table has the value of [e]. *)
Definition unique_in {K} (eqb : K -> K -> bool) (col : t -> K)
    (e : t) (others : list t) : bool :=
  forallb (fun o => negb (eqb (col o) (col e))) others.

(** [ordering = ("-arrival_time",)]. *)
Definition ordering (a b : t) : bool := arrival_time b <=? arrival_time a.
End LogEntry.

Module Certificate.
Record t := mk {
  id : Z;
  name : string;
  number : string;
  issue_date : date;
  valid_until : option date;
  authority : string;
  remarks : string;
  supersedes : option Z
}.

(** [Q(valid_until__isnull=True) | Q(valid_until__gt=F("issue_date"))]. *)
Definition validity_after_issue (c : t) : bool :=
  match valid_until c with
  | None => true
  | Some vu => PyDate.gtb vu (issue_date c)
  end.

(** [~Q(id=F("supersedes"))]; NULL [supersedes] passes the check. *)
Definition supersedes_self (c : t) : bool :=
  negb (sql_eq (supersedes c) (id c)).

(** [UniqueConstraint(fields=["supersedes"],
    condition=Q(supersedes__isnull=False))]: no other row has the same
    non-NULL [supersedes]. *)
Definition supersedes_unique (c : t) (others : list t) : bool :=
  match supersedes c with
  | None => true
  | Some target => forallb (fun o => negb (sql_eq (supersedes o) target)) others
  end.

(** [ordering = ("name", F("supersedes").desc(nulls_last=True),
    "-valid_until")]. Names compare byte-wise (the collation is the
    database's); on the descending [valid_until] NULL comes first, as in
    PostgreSQL. *)
Definition compare_desc_nulls_last (a b : option Z) : comparison :=
  match a, b with
  | Some x, Some y => y ?= x
  | Some _, None => Lt
  | None, Some _ => Gt
  | None, None => Eq
  end.

Definition compare_desc_nulls_first (a b : option date) : comparison :=
  match a, b with
  | Some x, Some y => PyDate.compare y x
  | Some _, None => Gt
  | None, Some _ => Lt
  | None, None => Eq
  end.

Definition compare (a b : t) : comparison :=
  match String.compare (name a) (name b) with
  | Eq => match compare_desc_nulls_last (supersedes a) (supersedes b) with
          | Eq => compare_desc_nulls_first (valid_until a) (valid_until b)
          | c => c
          end
  | c => c
  end.

Definition ordering (a b : t) : bool :=
  match compare a b with Gt => false | _ => true end.
End Certificate.

(** ** The world the views run in *)

(** Levels of [django.contrib.messages] and a stored message. *)
Inductive Level := DEBUG | INFO | SUCCESS | WARNING | ERROR.

Record Message := mkMessage { level : Level; message : string }.

Inductive exn :=
| ValueError
| TypeError
| IntegrityError (constraint : string).

Inductive outcome (A : Type) :=
| Return (a : A)
| Raise (e : exn).
Arguments Return {A} a.
Arguments Raise {A} e.

(** The two tables, the wall clock as the sequence of UTC dates it shows at
    successive readings, the number of readings made so far, and the
    message storage of the request being served. *)
Record World := mkWorld {
  certificate_table : list Certificate.t;
  logentry_table : list LogEntry.t;
  clock : nat -> date;
  reads : nat;
  storage : list Message
}.

Definition M (A : Type) : Type := World -> outcome A * World.

Definition ret {A} (a : A) : M A := fun w => (Return a, w).

Definition bind {A B} (m : M A) (f : A -> M B) : M B :=
  fun w =>
    match m w with
    | (Return a, w') => f a w'
    | (Raise e, w') => (Raise e, w')
    end.

Definition raise {A} (e : exn) : M A := fun w => (Raise e, w).

Notation "x <- c ;; k" := (bind c (fun x => k))
  (at level 61, c at next level, right associativity).
Notation "c ;;; k" := (bind c (fun _ => k))
  (at level 61, right associativity).

(** The world after one more reading of the clock, and after one more
    message in the storage. *)
Definition tick (w : World) : World :=
  mkWorld (certificate_table w) (logentry_table w) (clock w)
          (S (reads w)) (storage w).

Definition push (m : Message) (w : World) : World :=
  mkWorld (certificate_table w) (logentry_table w) (clock w) (reads w)
          (storage w ++ [m]).

(** [datetime.now(tz=UTC).date()]. *)
Definition now_date : M date :=
  fun w => (Return (clock w (reads w)), tick w).

(** [Certificate.objects.all()] and [LogEntry.objects.all()], unordered. *)
Definition Certificate_objects : M (list Certificate.t) :=
  fun w => (Return (certificate_table w), w).

Definition LogEntry_objects : M (list LogEntry.t) :=
  fun w => (Return (logentry_table w), w).

(** [messages.add_message(request, level, message)]. *)
Definition add_message (lvl : Level) (msg : string) : M unit :=
  fun w => (Return tt, push (mkMessage lvl msg) w).

Definition messages_error : string -> M unit := add_message ERROR.
Definition messages_warning : string -> M unit := add_message WARNING.

(** [for x in l: body(x)]. *)
Fixpoint for_each {A} (l : list A) (body : A -> M unit) : M unit :=
  match l with
  | [] => ret tt
  | x :: l' => body x ;;; for_each l' body
  end.

(** ** [Certificate]: derived properties *)

(** The reverse relation [self.supersedes_set]: the certificates whose
    [supersedes] is [self], in the default ordering. *)
Definition supersedes_set_of (rows : list Certificate.t) (self : Certificate.t)
    : list Certificate.t :=
  order_by Certificate.ordering
    (filter (fun c => sql_eq (Certificate.supersedes c) (Certificate.id self)) rows).

Definition Certificate_supersedes_set (self : Certificate.t) : M (list Certificate.t) :=
  rows <- Certificate_objects ;;
  ret (supersedes_set_of rows self).

(** [QuerySet.count()], [QuerySet.exists()] and [QuerySet.first()]. *)
Definition count {A} (qs : list A) : Z := Z.of_nat (List.length qs).
Definition exists_ {A} (qs : list A) : bool :=
  match qs with [] => false | _ :: _ => true end.
Definition first {A} (qs : list A) : option A := hd_error qs.

(** [Certificate.__str__]. *)
Definition Certificate_str (self : Certificate.t) : string :=
  (Certificate.name self
   ++ (if String.eqb (Certificate.number self) EmptyString then EmptyString
       else " / " ++ Certificate.number self)
   ++ " (" ++ PyDate.isoformat (Certificate.issue_date self) ++ ")")%string.

(** The property [Certificate.valid]; [or] and [and] evaluate their right
    operand only when needed, so the clock is read only for a certificate
    with a [valid_until], and the count is queried only for one that has not
    expired. *)
Definition Certificate_valid (self : Certificate.t) : M bool :=
  not_expired <-
    match Certificate.valid_until self with
    | None => ret true
    | Some valid_until =>
        today <- now_date ;;
        ret (PyDate.geb valid_until today)
    end ;;
  if not_expired then
    superseders <- Certificate_supersedes_set self ;;
    ret (count superseders =? 0)
  else ret false.

(** The property [Certificate.superseded_by]. *)
Definition Certificate_superseded_by (self : Certificate.t)
    : M (option Certificate.t) :=
  superseders <- Certificate_supersedes_set self ;;
  ret (first superseders).

(** ** [Aircraft.currency_status] *)

(** [get_ninety_days_currency] and its result type [NinetyDaysCurrency] come
    from [statistics/currency.py]; the property only hands the evaluator
    its queryset, so both are parameters here. *)
Section Currency.
Context {NinetyDaysCurrency : Type}.
Variable get_ninety_days_currency : list LogEntry.t -> M NinetyDaysCurrency.

(** [LogEntry.objects.filter(aircraft=self)], in the default ordering. *)
Definition entries_of_aircraft (rows : list LogEntry.t) (self : Aircraft.t)
    : list LogEntry.t :=
  order_by LogEntry.ordering
    (filter (fun e => LogEntry.aircraft e =? Aircraft.id self) rows).

Definition Aircraft_currency_status (self : Aircraft.t)
    : M (option NinetyDaysCurrency) :=
  if Aircraft.currency_required self then
    rows <- LogEntry_objects ;;
    status <- get_ninety_days_currency (entries_of_aircraft rows self) ;;
    ret (Some status)
  else ret None.
End Currency.

(** ** [views/utils.py] *)

(** [EXPIRY_WARNING_THRESHOLD = relativedelta(months=3)]. *)
Definition EXPIRY_WARNING_THRESHOLD : PyDate.relativedelta := PyDate.mkdelta 0 3.

(** SQL's [column <= value] on a nullable date column: false on NULL. *)
Definition sql_lte (a : option date) (b : date) : bool :=
  match a with
  | Some x => PyDate.leb x b
  | None => false
  end.

(** [FROM certificate T1 LEFT OUTER JOIN certificate T2
    ON (T1.id = T2.supersedes_id)]: every row with each of its superseders,
    or once with NULL when it has none. *)
Definition left_join_supersedes_set (rows : list Certificate.t)
    : list (Certificate.t * option Certificate.t) :=
  flat_map
    (fun t1 =>
       match filter (fun t2 => sql_eq (Certificate.supersedes t2) (Certificate.id t1)) rows with
       | [] => [(t1, None)]
       | matches => map (fun t2 => (t1, Some t2)) matches
       end)
    rows.

(** [Certificate.objects.filter(valid_until__lte=limit, supersedes_set=None)]:
    [WHERE T1.valid_until <= limit AND T2.id IS NULL], in the default
    ordering. *)
Definition expiring_certificates (rows : list Certificate.t) (limit : date)
    : list Certificate.t :=
  order_by Certificate.ordering
    (map fst
       (filter
          (fun '(t1, t2) =>
             sql_lte (Certificate.valid_until t1) limit
             && match t2 with None => true | Some _ => false end)
          (left_join_supersedes_set rows))).

(** [str(certificate.valid_until)]. *)
Definition str_optional_date (d : option date) : string :=
  match d with
  | Some d => PyDate.isoformat d
  | None => "None"
  end.

(** The double-quote character inside the f-strings. *)
Definition dquote : string := String "034"%char EmptyString.

(** The two f-strings of the view; [mark_safe] only tags the string. *)
Definition expired_text (certificate : Certificate.t) : string :=
  ("Certificate <strong>" ++ dquote ++ Certificate_str certificate
   ++ dquote ++ "</strong> has expired on "
   ++ str_optional_date (Certificate.valid_until certificate) ++ "!")%string.

Definition expires_text (certificate : Certificate.t) (days : Z) : string :=
  ("Certificate <strong>" ++ dquote ++ Certificate_str certificate
   ++ dquote ++ "</strong> expires in <strong>" ++ PyDate.str_int days
   ++ "</strong> days!")%string.

(** The body of the loop. Subtracting from a missing [valid_until] raises
    [TypeError]. *)
Definition notify_certificate (today : date) (certificate : Certificate.t) : M unit :=
  valid <- Certificate_valid certificate ;;
  if negb valid then messages_error (expired_text certificate)
  else
    match Certificate.valid_until certificate with
    | Some valid_until =>
        messages_warning (expires_text certificate (PyDate.sub_days valid_until today))
    | None => raise TypeError
    end.

(** [check_certificates_expiry(request)]; the messages go to the storage of
    the request. *)
Definition check_certificates_expiry : M unit :=
  today <- now_date ;;
  limit <-
    match PyDate.add today EXPIRY_WARNING_THRESHOLD with
    | Some d => ret d
    | None => raise ValueError
    end ;;
  rows <- Certificate_objects ;;
  let certificates := expiring_certificates rows limit in
  if exists_ certificates then
    for_each certificates (notify_certificate today)
  else ret tt.

(** ** The storage layer

    [Model.save()] updates the row that has the primary key of the object,
    or inserts it; the database raises [IntegrityError] when the row
    violates a constraint declared by the model, and then writes nothing.
    Foreign keys are not checked against the referenced table, and
    [on_delete=PROTECT] is not enforced: the stores that can arise here
    include every store the database would allow. *)

Definition set_tables (w : World) (cs : list Certificate.t) (es : list LogEntry.t)
    : World :=
  mkWorld cs es (clock w) (reads w) (storage w).

Section Upsert.
Context {A : Type} (pk : A -> Z).

Definition others (x : A) (rows : list A) : list A :=
  filter (fun o => negb (pk o =? pk x)) rows.

Definition upsert (x : A) (rows : list A) : list A :=
  if existsb (fun o => pk o =? pk x) rows
  then map (fun o => if pk o =? pk x then x else o) rows
  else rows ++ [x].
End Upsert.

Definition LogEntry_violation (self : LogEntry.t) (rows : list LogEntry.t)
    : option string :=
  let rest := others LogEntry.id self rows in
  if negb (LogEntry.arrival_after_departure self) then Some "arrival_after_departure"
  else if negb (LogEntry.copilot_not_pilot self) then Some "copilot_not_pilot"
  else if negb (LogEntry.no_pic_no_xc self) then Some "no_pic_no_xc"
  else if negb (LogEntry.unique_in Z.eqb LogEntry.departure_time self rest)
  then Some "departure_time"
  else if negb (LogEntry.unique_in Z.eqb LogEntry.arrival_time self rest)
  then Some "arrival_time"
  else None.

Definition LogEntry_save (self : LogEntry.t) : M unit :=
  fun w =>
    match LogEntry_violation self (logentry_table w) with
    | Some constraint => (Raise (IntegrityError constraint), w)
    | None =>
        (Return tt,
         set_tables w (certificate_table w)
                    (upsert LogEntry.id self (logentry_table w)))
    end.

Definition LogEntry_delete (self : LogEntry.t) : M unit :=
  fun w =>
    (Return tt,
     set_tables w (certificate_table w)
                (others LogEntry.id self (logentry_table w))).

Definition Certificate_violation (self : Certificate.t) (rows : list Certificate.t)
    : option string :=
  let rest := others Certificate.id self rows in
  if negb (Certificate.validity_after_issue self) then Some "validity_after_issue"
  else if negb (Certificate.supersedes_self self) then Some "supersedes_self"
  else if negb (Certificate.supersedes_unique self rest) then Some "supersedes_unique"
  else None.

Definition Certificate_save (self : Certificate.t) : M unit :=
  fun w =>
    match Certificate_violation self (certificate_table w) with
    | Some constraint => (Raise (IntegrityError constraint), w)
    | None =>
        (Return tt,
         set_tables w (upsert Certificate.id self (certificate_table w))
                    (logentry_table w))
    end.

Definition Certificate_delete (self : Certificate.t) : M unit :=
  fun w =>
    (Return tt,
     set_tables w (others Certificate.id self (certificate_table w))
                (logentry_table w)).

(** What a client of the application can do to the world. *)
Inductive request :=
| SaveLogEntry (e : LogEntry.t)
| DeleteLogEntry (e : LogEntry.t)
| SaveCertificate (c : Certificate.t)
| DeleteCertificate (c : Certificate.t)
| CheckCertificatesExpiry.

Definition serve (r : request) : M unit :=
  match r with
  | SaveLogEntry e => LogEntry_save e
  | DeleteLogEntry e => LogEntry_delete e
  | SaveCertificate c => Certificate_save c
  | DeleteCertificate c => Certificate_delete c
  | CheckCertificatesExpiry => check_certificates_expiry
  end.

(** The empty database under a given clock, and the world after a history
    of requests; a request that raises leaves what it wrote before. *)
Definition empty_world (clk : nat -> date) : World := mkWorld [] [] clk 0 [].

Definition after (history : list request) (w : World) : World :=
  fold_left (fun w r => snd (serve r w)) history w.

(** ** Vocabulary of the properties *)

(** [has_superseder rows c]: some row points at [c] with its [supersedes]. *)
Definition has_superseder (rows : list Certificate.t) (c : Certificate.t) : Prop :=
  exists o, In o rows /\ Certificate.supersedes o = Some (Certificate.id c).

(** The rows the join and the WHERE clause of the view keep. *)
Definition eligible (rows : list Certificate.t) (limit : date) (c : Certificate.t)
    : bool :=
  sql_lte (Certificate.valid_until c) limit
  && match filter (fun t2 => sql_eq (Certificate.supersedes t2) (Certificate.id c)) rows with
     | [] => true
     | _ :: _ => false
     end.

(** [Certificate.valid] as a function of the table and of the date the
    clock shows. *)
Definition valid_at (rows : list Certificate.t) (today : date) (c : Certificate.t)
    : bool :=
  match Certificate.valid_until c with
  | None => true
  | Some vu => PyDate.geb vu today
  end
  && (count (supersedes_set_of rows c) =? 0).

(** The world after [k] more readings of the clock and the messages [new]. *)
Definition advance (k : nat) (new : list Message) (w : World) : World :=
  mkWorld (certificate_table w) (logentry_table w) (clock w)
          (k + reads w) (storage w ++ new).

(** The messages of the loop of the view over [l], when the [n]-th reading
    of the clock is the next one: every certificate is judged at a reading of
    its own, the days are counted from [today]. *)
Fixpoint notices (today : date) (clk : nat -> date) (n : nat)
    (l : list Certificate.t) : list Message :=
  match l with
  | [] => []
  | x :: l' =>
      match Certificate.valid_until x with
      | Some vu =>
          (if PyDate.geb vu (clk n)
           then mkMessage WARNING (expires_text x (PyDate.sub_days vu today))
           else mkMessage ERROR (expired_text x))
          :: notices today clk (S n) l'
      | None => []
      end
  end.

(** The notice due for a certificate that expires on [vu]. *)
Definition expiry_notice (today : date) (c : Certificate.t) (vu : date) : Message :=
  if PyDate.ltb vu today then mkMessage ERROR (expired_text c)
  else mkMessage WARNING (expires_text c (PyDate.sub_days vu today)).

Definition notice_of (today : date) (c : Certificate.t) (m : Message) : Prop :=
  exists vu, Certificate.valid_until c = Some vu /\ m = expiry_notice today c vu.

(** Every reading of the clock made from now on shows [today]. *)
Definition clock_shows (w : World) (today : date) : Prop :=
  forall k : nat, clock w (k + reads w) = today.

(** A certificate is superseded when the [supersedes] of some other
    certificate points to it. *)
Definition superseded (rows : list Certificate.t) (c : Certificate.t) : Prop :=
  exists o,
    In o rows /\ Certificate.id o <> Certificate.id c
    /\ Certificate.supersedes o = Some (Certificate.id c).

(** [valid_until] is absent, or it is [today] or later. *)
Definition not_expired (today : date) (c : Certificate.t) : Prop :=
  Certificate.valid_until c = None
  \/ exists vu, Certificate.valid_until c = Some vu /\ PyDate.geb vu today = true.

(** The check constraint [supersedes_self] holds of every stored row. *)
Definition no_self_supersession (rows : list Certificate.t) : Prop :=
  forall o, In o rows -> Certificate.supersedes_self o = true.

(** [m] is one of the two messages the view writes about [c]. *)
Definition notice_about (c : Certificate.t) (m : Message) : Prop :=
  m = mkMessage ERROR (expired_text c)
  \/ exists days, m = mkMessage WARNING (expires_text c days).

(** Two worlds hold the same snapshot at the same time: the tables agree and
    the clock will show the same dates from now on. The messages already in
    the storage and the number of readings made so far may differ. *)
Definition same_snapshot (w1 w2 : World) : Prop :=
  certificate_table w1 = certificate_table w2
  /\ logentry_table w1 = logentry_table w2
  /\ forall k : nat, clock w1 (k + reads w1)%nat = clock w2 (k + reads w2)%nat.

(** A computation whose outcome, new messages and number of clock readings
    are a function of the snapshot and of the dates the clock shows, and
    which leaves the tables as they are. *)
Definition snapshot_function {A} (m : M A) : Prop :=
  forall w1 w2,
    same_snapshot w1 w2 ->
    exists r k new, m w1 = (r, advance k new w1) /\ m w2 = (r, advance k new w2).

(** Primary key and both timestamp columns of the log entries are unique. *)
Definition logentry_keys_unique (rows : list LogEntry.t) : Prop :=
  NoDup (map LogEntry.id rows)
  /\ NoDup (map LogEntry.departure_time rows)
  /\ NoDup (map LogEntry.arrival_time rows).

(** Following the [superseded_by] links for at most [n] steps, as a caller
    in search of the head of a chain does; the repository has no such
    traversal of its own. *)
Fixpoint follow_superseded_by (n : nat) (c : Certificate.t) : M Certificate.t :=
  match n with
  | O => ret c
  | S n' =>
      next <- Certificate_superseded_by c ;;
      match next with
      | Some c' => follow_superseded_by n' c'
      | None => ret c
      end
  end.

(** All flights of the sequence belong to one (pilot, aircraft) pair. *)
Definition single_pilot_and_aircraft (flights : list LogEntry.t) : Prop :=
  forall e1 e2,
    In e1 flights -> In e2 flights ->
    LogEntry.pilot e1 = LogEntry.pilot e2
    /\ LogEntry.aircraft e1 = LogEntry.aircraft e2.

(** Every error comes before every warning. *)
Definition errors_before_warnings (l : list Message) : Prop :=
  forall i j mi mj,
    nth_error l i = Some mi -> nth_error l j = Some mj ->
    level mi = ERROR -> level mj = WARNING -> (i < j)%nat.

(** Among notices of one level, an earlier one is about a certificate with
    the same or an earlier [valid_until]. *)
Definition ascending_within_level (qs : list Certificate.t) (l : list Message)
    : Prop :=
  forall i j ci cj mi mj vi vj,
    (i < j)%nat ->
    nth_error qs i = Some ci -> nth_error qs j = Some cj ->
    nth_error l i = Some mi -> nth_error l j = Some mj ->
    level mi = level mj ->
    Certificate.valid_until ci = Some vi -> Certificate.valid_until cj = Some vj ->
    PyDate.leb vi vj = true.

(** ** Sample stores *)

Definition sample_certificate (id : Z) (name : string)
    (valid_until : option date) (supersedes : option Z) : Certificate.t :=
  Certificate.mk id name EmptyString (PyDate.mkdate 2020 1 1) valid_until
    "CAA" EmptyString supersedes.

Definition sample_flight (id aircraft pilot departure arrival : Z) : LogEntry.t :=
  LogEntry.mk id aircraft 1 1 departure arrival 1 PIC pilot None None
    EmptyString false false 1.

Definition sample_aircraft (id : Z) (currency_required : bool) : Aircraft.t :=
  Aircraft.mk id SEP "Cessna" "172" "C172" "D-EABC" currency_required KT
    None None None None None None None None.

(** A world with the given tables whose clock shows [today] at every
    reading. *)
Definition world_on (today : date) (certificates : list Certificate.t)
    (entries : list LogEntry.t) : World :=
  mkWorld certificates entries (fun _ => today) O [].

Definition new_year_2024 : date := PyDate.mkdate 2024 1 1.

(** Three unsuperseded certificates of one name: two about to expire, one
    expired. *)
Definition medical_march : Certificate.t :=
  sample_certificate 1 "Medical" (Some (PyDate.mkdate 2024 3 1)) None.
Definition medical_february : Certificate.t :=
  sample_certificate 2 "Medical" (Some (PyDate.mkdate 2024 2 1)) None.
Definition medical_december : Certificate.t :=
  sample_certificate 3 "Medical" (Some (PyDate.mkdate 2023 12 1)) None.

Definition medicals : list Certificate.t :=
  [medical_december; medical_february; medical_march].

(** A renewal chain and an open-ended licence. *)
Definition rating_2022 : Certificate.t :=
  sample_certificate 4 "Rating" (Some (PyDate.mkdate 2023 6 1)) None.
Definition rating_2023 : Certificate.t :=
  sample_certificate 5 "Rating" (Some (PyDate.mkdate 2024 6 1)) (Some 4).
Definition licence : Certificate.t :=
  sample_certificate 6 "Licence" None None.

(** Two certificates that supersede each other, and one that supersedes
    itself. *)
Definition cycle_a : Certificate.t :=
  sample_certificate 1 "SPL" (Some (PyDate.mkdate 2025 1 1)) (Some 2).
Definition cycle_b : Certificate.t :=
  sample_certificate 2 "SPL" (Some (PyDate.mkdate 2026 1 1)) (Some 1).
Definition own_successor : Certificate.t :=
  sample_certificate 1 "SPL" (Some (PyDate.mkdate 2025 1 1)) (Some 1).

(** A certificate that expires 91 days after New Year 2024, which is three
    calendar months later. *)
Definition expires_april_first : Certificate.t :=
  sample_certificate 1 "Medical" (Some (PyDate.mkdate 2024 4 1)) None.

(** Two flights of one aircraft by two pilots. *)
Definition flight_of_pilot_1 : LogEntry.t := sample_flight 1 7 1 1000 2000.
Definition flight_of_pilot_2 : LogEntry.t := sample_flight 2 7 2 3000 4000.

(** The primary key of the certificates is unique, and no two stored
    certificates supersede the same one. *)
Definition certificate_keys_unique (rows : list Certificate.t) : Prop :=
  NoDup (map Certificate.id rows)
  /\ forall o1 o2 target,
       In o1 rows -> In o2 rows ->
       Certificate.supersedes o1 = Some target ->
       Certificate.supersedes o2 = Some target ->
       Certificate.id o1 = Certificate.id o2.

(** The three check constraints of [LogEntry], read on a row. *)
Definition logentry_checked (e : LogEntry.t) : Prop :=
  LogEntry.departure_time e < LogEntry.arrival_time e
  /\ LogEntry.copilot e <> Some (LogEntry.pilot e)
  /\ (LogEntry.cross_country e = true -> LogEntry.time_function e = PIC).

(** A certificate as it is first saved, before it supersedes anything. *)
Definition without_supersedes (c : Certificate.t) : Certificate.t :=
  Certificate.mk (Certificate.id c) (Certificate.name c) (Certificate.number c)
    (Certificate.issue_date c) (Certificate.valid_until c)
    (Certificate.authority c) (Certificate.remarks c) None.

(** * Properties *)

(** ** Dates *)

Example toordinal_2024_01_01 : PyDate.toordinal (PyDate.mkdate 2024 1 1) = 738886.
Proof. reflexivity. Qed.

Example isoformat_2024_02_01 :
  PyDate.isoformat (PyDate.mkdate 2024 2 1) = "2024-02-01".
Proof. reflexivity. Qed.

Example add_three_months_clips :
  PyDate.add (PyDate.mkdate 2023 11 30) EXPIRY_WARNING_THRESHOLD
  = Some (PyDate.mkdate 2024 2 29).
Proof. reflexivity. Qed.

Lemma date_compare_refl (a : date) : PyDate.compare a a = Eq.
Proof. unfold PyDate.compare. now rewrite !Z.compare_refl. Qed.

Lemma date_compare_antisym (a b : date) :
  PyDate.compare b a = CompOpp (PyDate.compare a b).
Proof.
  unfold PyDate.compare.
  rewrite (Z.compare_antisym (PyDate.year a)), (Z.compare_antisym (PyDate.month a)),
    (Z.compare_antisym (PyDate.day a)).
  destruct (PyDate.year a ?= PyDate.year b); simpl; trivial.
  destruct (PyDate.month a ?= PyDate.month b); simpl; trivial.
Qed.

Lemma date_ltb_geb (a b : date) : PyDate.ltb a b = negb (PyDate.geb a b).
Proof.
  unfold PyDate.ltb, PyDate.geb, PyDate.leb. rewrite (date_compare_antisym a b).
  now destruct (PyDate.compare a b).
Qed.

Lemma date_leb_refl (a : date) : PyDate.leb a a = true.
Proof. unfold PyDate.leb. now rewrite date_compare_refl. Qed.

Lemma date_leb_trans (a b c : date) :
  PyDate.leb a b = true -> PyDate.leb b c = true -> PyDate.leb a c = true.
Proof.
  destruct a as [ya ma da], b as [yb mb db], c as [yc mc dc].
  unfold PyDate.leb, PyDate.compare. simpl.
  destruct (Z.compare_spec ya yb), (Z.compare_spec yb yc), (Z.compare_spec ya yc);
    try discriminate; try lia; trivial;
  destruct (Z.compare_spec ma mb), (Z.compare_spec mb mc), (Z.compare_spec ma mc);
    try discriminate; try lia; trivial;
  destruct (Z.compare_spec da db), (Z.compare_spec db dc), (Z.compare_spec da dc);
    try discriminate; try lia; trivial.
Qed.

(** ** Ordered querysets *)

Section OrderByFacts.
Context {A : Type} (leb : A -> A -> bool).

Lemma insert_row_perm (x : A) (l : list A) :
  Permutation (insert_row leb x l) (x :: l).
Proof.
  induction l as [|y l IH]; simpl; [reflexivity|].
  destruct (leb x y); [reflexivity|].
  rewrite IH. apply perm_swap.
Qed.

Lemma order_by_perm (l : list A) : Permutation (order_by leb l) l.
Proof.
  induction l as [|x l IH]; simpl; [constructor|].
  rewrite insert_row_perm. now constructor.
Qed.

Lemma order_by_In (x : A) (l : list A) : In x (order_by leb l) <-> In x l.
Proof.
  split; apply Permutation_in; [|symmetry]; apply order_by_perm.
Qed.

Lemma order_by_nil (l : list A) : order_by leb l = [] <-> l = [].
Proof.
  split; intros H.
  - apply Permutation_nil. rewrite <- H. apply order_by_perm.
  - now subst.
Qed.

Hypothesis leb_total : forall x y, leb x y = true \/ leb y x = true.

Lemma insert_row_sorted (x : A) (l : list A) :
  Sorted (fun a b => leb a b = true) l ->
  Sorted (fun a b => leb a b = true) (insert_row leb x l).
Proof.
  induction l as [|y l IH]; intros Hs; simpl.
  - repeat constructor.
  - destruct (leb x y) eqn:Hxy.
    + constructor; [assumption | now constructor].
    + inversion Hs as [|? ? Hl Hhd]; subst.
      constructor; [now apply IH|].
      destruct l as [|z l]; simpl.
      * constructor. destruct (leb_total x y); congruence.
      * destruct (leb x z).
        -- constructor. destruct (leb_total x y); congruence.
        -- inversion Hhd; subst. now constructor.
Qed.

Lemma order_by_sorted (l : list A) :
  Sorted (fun a b => leb a b = true) (order_by leb l).
Proof.
  induction l as [|x l IH]; simpl; [constructor | now apply insert_row_sorted].
Qed.
End OrderByFacts.

(** ** The default ordering of certificates is a total preorder *)

Lemma string_compare_refl (s : string) : String.compare s s = Eq.
Proof.
  induction s as [|a s IH]; simpl; trivial.
  unfold Ascii.compare. now rewrite N.compare_refl.
Qed.

Lemma string_compare_lt_trans (a b c : string) :
  String.compare a b = Lt -> String.compare b c = Lt -> String.compare a c = Lt.
Proof.
  revert b c. induction a as [|x a IH]; intros [|y b] [|z c]; simpl;
    try discriminate; trivial.
  unfold Ascii.compare.
  destruct (N.compare_spec (N_of_ascii x) (N_of_ascii y)) as [Exy|Lxy|Gxy];
    try discriminate;
  destruct (N.compare_spec (N_of_ascii y) (N_of_ascii z)) as [Eyz|Lyz|Gyz];
    try discriminate; intros Hab Hbc.
  - rewrite Exy, Eyz, N.compare_refl. eauto.
  - rewrite Exy. now apply N.compare_lt_iff in Lyz as ->.
  - rewrite <- Eyz. now apply N.compare_lt_iff in Lxy as ->.
  - assert (H : (N_of_ascii x < N_of_ascii z)%N) by lia.
    now apply N.compare_lt_iff in H as ->.
Qed.

Lemma desc_nulls_last_eq (a b : option Z) :
  Certificate.compare_desc_nulls_last a b = Eq -> a = b.
Proof.
  destruct a as [x|], b as [y|]; simpl; try discriminate; trivial.
  intros H. apply Z.compare_eq in H. now subst.
Qed.

Lemma desc_nulls_last_refl (a : option Z) :
  Certificate.compare_desc_nulls_last a a = Eq.
Proof. destruct a; simpl; trivial. apply Z.compare_refl. Qed.

Lemma desc_nulls_last_lt_trans (a b c : option Z) :
  Certificate.compare_desc_nulls_last a b = Lt ->
  Certificate.compare_desc_nulls_last b c = Lt ->
  Certificate.compare_desc_nulls_last a c = Lt.
Proof.
  destruct a as [x|], b as [y|], c as [z|]; simpl; try discriminate; trivial.
  rewrite !Z.compare_lt_iff. lia.
Qed.

Lemma desc_nulls_first_le_trans (a b c : option date) :
  Certificate.compare_desc_nulls_first a b <> Gt ->
  Certificate.compare_desc_nulls_first b c <> Gt ->
  Certificate.compare_desc_nulls_first a c <> Gt.
Proof.
  destruct a as [x|], b as [y|], c as [z|]; simpl; try congruence.
  intros Hyx Hzy.
  assert (H : PyDate.leb z x = true).
  { apply date_leb_trans with y; unfold PyDate.leb.
    - now destruct (PyDate.compare z y).
    - now destruct (PyDate.compare y x). }
  unfold PyDate.leb in H. intros E. now rewrite E in H.
Qed.

Lemma ordering_total (a b : Certificate.t) :
  Certificate.ordering a b = true \/ Certificate.ordering b a = true.
Proof.
  unfold Certificate.ordering, Certificate.compare.
  rewrite (String.compare_antisym (Certificate.name b)).
  destruct (String.compare (Certificate.name a) (Certificate.name b)); simpl; auto.
  destruct (Certificate.supersedes a) as [x|], (Certificate.supersedes b) as [y|];
    simpl; auto.
  - rewrite (Z.compare_antisym x y).
    destruct (x ?= y); simpl; auto.
    destruct (Certificate.valid_until a) as [u|], (Certificate.valid_until b) as [v|];
      simpl; auto.
    rewrite (date_compare_antisym v u). destruct (PyDate.compare v u); simpl; auto.
  - destruct (Certificate.valid_until a) as [u|], (Certificate.valid_until b) as [v|];
      simpl; auto.
    rewrite (date_compare_antisym v u). destruct (PyDate.compare v u); simpl; auto.
Qed.

Lemma ordering_trans (a b c : Certificate.t) :
  Certificate.ordering a b = true -> Certificate.ordering b c = true ->
  Certificate.ordering a c = true.
Proof.
  unfold Certificate.ordering, Certificate.compare.
  destruct (String.compare (Certificate.name a) (Certificate.name b)) eqn:Nab;
    try discriminate;
  destruct (String.compare (Certificate.name b) (Certificate.name c)) eqn:Nbc;
    try discriminate.
  - apply String.compare_eq_iff in Nab, Nbc. rewrite Nab, Nbc, string_compare_refl.
    destruct (Certificate.compare_desc_nulls_last
                (Certificate.supersedes a) (Certificate.supersedes b)) eqn:Sab;
      try discriminate;
    destruct (Certificate.compare_desc_nulls_last
                (Certificate.supersedes b) (Certificate.supersedes c)) eqn:Sbc;
      try discriminate.
    + apply desc_nulls_last_eq in Sab, Sbc. rewrite Sab, Sbc, desc_nulls_last_refl.
      intros Hab Hbc.
      pose proof (desc_nulls_first_le_trans (Certificate.valid_until a)
                    (Certificate.valid_until b) (Certificate.valid_until c)) as H.
      destruct (Certificate.compare_desc_nulls_first
                  (Certificate.valid_until a) (Certificate.valid_until c));
        trivial.
      exfalso. apply H; trivial; intros E; rewrite E in *; discriminate.
    + apply desc_nulls_last_eq in Sab. now rewrite Sab, Sbc.
    + apply desc_nulls_last_eq in Sbc. now rewrite <- Sbc, Sab.
    + now rewrite (desc_nulls_last_lt_trans _ _ _ Sab Sbc).
  - apply String.compare_eq_iff in Nab. now rewrite Nab, Nbc.
  - apply String.compare_eq_iff in Nbc. now rewrite <- Nbc, Nab.
  - now rewrite (string_compare_lt_trans _ _ _ Nab Nbc).
Qed.

Lemma expiring_sorted (rows : list Certificate.t) (limit : date) :
  StronglySorted (fun a b => Certificate.ordering a b = true)
    (expiring_certificates rows limit).
Proof.
  apply Sorted_StronglySorted.
  - intros a b c. apply ordering_trans.
  - apply order_by_sorted, ordering_total.
Qed.

(** ** What the querysets contain *)

Lemma sql_eq_true (a : option Z) (b : Z) : sql_eq a b = true <-> a = Some b.
Proof.
  destruct a as [x|]; simpl; [|split; discriminate].
  rewrite Z.eqb_eq. split; congruence.
Qed.

Lemma supersedes_set_In (rows : list Certificate.t) (self o : Certificate.t) :
  In o (supersedes_set_of rows self)
  <-> In o rows /\ Certificate.supersedes o = Some (Certificate.id self).
Proof.
  unfold supersedes_set_of. now rewrite order_by_In, filter_In, sql_eq_true.
Qed.

Lemma supersedes_set_nil (rows : list Certificate.t) (self : Certificate.t) :
  supersedes_set_of rows self = [] <-> ~ has_superseder rows self.
Proof.
  split.
  - intros E (o & Ho). apply supersedes_set_In in Ho. now rewrite E in Ho.
  - intros H. destruct (supersedes_set_of rows self) as [|o l] eqn:E; trivial.
    exfalso. apply H. exists o. apply supersedes_set_In. rewrite E. now left.
Qed.

Lemma count_zero {A} (qs : list A) : (count qs =? 0) = true <-> qs = [].
Proof.
  unfold count. rewrite Z.eqb_eq. destruct qs; simpl; split; try lia; congruence.
Qed.

Lemma left_join_where (rows : list Certificate.t) (limit : date) :
  map fst
    (filter
       (fun '(t1, t2) =>
          sql_lte (Certificate.valid_until t1) limit
          && match t2 with None => true | Some _ => false end)
       (left_join_supersedes_set rows))
  = filter (eligible rows limit) rows.
Proof.
  unfold left_join_supersedes_set. generalize rows at 2 4 as l.
  induction l as [|x l IH]; [reflexivity|].
  cbn [flat_map filter]. rewrite filter_app, map_app, IH. f_equal.
  unfold eligible.
  destruct (filter (fun t2 => sql_eq _ (Certificate.id x)) rows) as [|m ms].
  - simpl. rewrite andb_true_r. now destruct (sql_lte _ limit).
  - rewrite andb_false_r. generalize (m :: ms) as l'.
    induction l' as [|y l' IH']; [reflexivity|].
    cbn [map filter]. now rewrite andb_false_r.
Qed.

Lemma eligible_true (rows : list Certificate.t) (limit : date) (c : Certificate.t) :
  eligible rows limit c = true
  <-> (exists vu, Certificate.valid_until c = Some vu /\ PyDate.leb vu limit = true)
      /\ ~ has_superseder rows c.
Proof.
  unfold eligible. rewrite andb_true_iff.
  assert (Hs : match filter (fun t2 => sql_eq (Certificate.supersedes t2) (Certificate.id c)) rows with
               | [] => true | _ :: _ => false end = true
               <-> ~ has_superseder rows c).
  { rewrite <- supersedes_set_nil. unfold supersedes_set_of.
    rewrite order_by_nil. destruct (filter _ rows); split; congruence. }
  rewrite Hs. apply and_iff_compat_r.
  destruct (Certificate.valid_until c) as [vu|]; simpl.
  - split; [eauto | now intros (? & [= <-] & ?)].
  - split; [discriminate | now intros (? & ? & _)].
Qed.

Lemma expiring_In (rows : list Certificate.t) (limit : date) (c : Certificate.t) :
  In c (expiring_certificates rows limit)
  <-> In c rows
      /\ (exists vu, Certificate.valid_until c = Some vu /\ PyDate.leb vu limit = true)
      /\ ~ has_superseder rows c.
Proof.
  unfold expiring_certificates.
  now rewrite order_by_In, left_join_where, filter_In, eligible_true.
Qed.

(** ** Runs of the certificate properties and of the view *)

Lemma Certificate_valid_run (c : Certificate.t) (w : World) :
  Certificate_valid c w
  = (Return (valid_at (certificate_table w) (clock w (reads w)) c),
     match Certificate.valid_until c with None => w | Some _ => tick w end).
Proof.
  unfold Certificate_valid, valid_at, Certificate_supersedes_set, Certificate_objects,
    now_date, bind, ret.
  destruct (Certificate.valid_until c) as [vu|]; simpl; trivial.
  now destruct (PyDate.geb vu (clock w (reads w))).
Qed.

Lemma Certificate_superseded_by_run (c : Certificate.t) (w : World) :
  Certificate_superseded_by c w
  = (Return (first (supersedes_set_of (certificate_table w) c)), w).
Proof. reflexivity. Qed.

Lemma notify_certificate_run (today vu : date) (c : Certificate.t) (w : World) :
  Certificate.valid_until c = Some vu ->
  ~ has_superseder (certificate_table w) c ->
  notify_certificate today c w
  = (Return tt, advance 1 (notices today (clock w) (reads w) [c]) w).
Proof.
  intros Hvu Hs. unfold notify_certificate, bind.
  rewrite Certificate_valid_run. unfold valid_at. simpl. rewrite Hvu.
  apply supersedes_set_nil in Hs. rewrite Hs. simpl. rewrite andb_true_r.
  now destruct (PyDate.geb vu (clock w (reads w))).
Qed.

Lemma advance_advance (j k : nat) (l1 l2 : list Message) (w : World) :
  advance k l2 (advance j l1 w) = advance (j + k) (l1 ++ l2) w.
Proof.
  unfold advance. simpl. f_equal; [lia | now rewrite app_assoc].
Qed.

Lemma for_each_notify (today : date) (l : list Certificate.t) :
  forall w,
    (forall x, In x l ->
       (exists vu, Certificate.valid_until x = Some vu)
       /\ ~ has_superseder (certificate_table w) x) ->
    for_each l (notify_certificate today) w
    = (Return tt, advance (List.length l) (notices today (clock w) (reads w) l) w).
Proof.
  induction l as [|x l IH]; intros w H.
  - unfold advance. simpl. rewrite app_nil_r. now destruct w.
  - destruct (H x (or_introl eq_refl)) as ((vu & Hvu) & Hs).
    cbn [for_each]. unfold bind at 1.
    rewrite (notify_certificate_run today vu x w Hvu Hs).
    rewrite IH by (intros y Hy; apply H; now right).
    rewrite advance_advance. simpl. rewrite Hvu. simpl.
    now replace (reads w + 1)%nat with (S (reads w)) by lia.
Qed.

Lemma check_certificates_expiry_run (w : World) (limit : date) :
  PyDate.add (clock w (reads w)) EXPIRY_WARNING_THRESHOLD = Some limit ->
  let qs := expiring_certificates (certificate_table w) limit in
  check_certificates_expiry w
  = (Return tt,
     advance (S (List.length qs))
       (notices (clock w (reads w)) (clock w) (S (reads w)) qs) w).
Proof.
  intros Hl qs. unfold check_certificates_expiry, bind at 1, now_date.
  rewrite Hl. unfold bind, ret, Certificate_objects. simpl. fold qs.
  destruct qs as [|x l] eqn:E; unfold exists_.
  - unfold advance, tick. simpl. now rewrite app_nil_r.
  - rewrite for_each_notify.
    + unfold advance, tick. simpl. do 2 f_equal. lia.
    + intros y Hy. simpl. rewrite <- E in Hy. apply expiring_In in Hy.
      destruct Hy as (_ & (vu & Hvu & _) & Hs). eauto.
Qed.

Lemma check_certificates_expiry_raises (w : World) :
  PyDate.add (clock w (reads w)) EXPIRY_WARNING_THRESHOLD = None ->
  check_certificates_expiry w = (Raise ValueError, tick w).
Proof.
  intros Hl. unfold check_certificates_expiry, bind at 1, now_date.
  rewrite Hl. reflexivity.
Qed.

Lemma notices_frozen (today : date) (clk : nat -> date) (l : list Certificate.t) :
  forall n,
    (forall k, clk (k + n)%nat = today) ->
    (forall x, In x l -> exists vu, Certificate.valid_until x = Some vu) ->
    Forall2 (notice_of today) l (notices today clk n l).
Proof.
  induction l as [|x l IH]; intros n Hc H; simpl; [constructor|].
  destruct (H x (or_introl eq_refl)) as (vu & Hvu). rewrite Hvu.
  constructor.
  - exists vu. split; trivial. unfold expiry_notice.
    rewrite date_ltb_geb, <- (Hc O). simpl. now destruct (PyDate.geb vu (clk n)).
  - apply IH.
    + intros k. rewrite <- (Hc (S k)). f_equal. lia.
    + intros y Hy. apply H. now right.
Qed.

(** ** Validity of a certificate *)

Lemma supersedes_self_true (o : Certificate.t) :
  Certificate.supersedes_self o = true
  <-> Certificate.supersedes o <> Some (Certificate.id o).
Proof.
  unfold Certificate.supersedes_self. rewrite negb_true_iff, <- sql_eq_true.
  now destruct (sql_eq _ _).
Qed.

Lemma superseded_has_superseder (rows : list Certificate.t) (c : Certificate.t) :
  superseded rows c -> has_superseder rows c.
Proof. intros (o & Ho & _ & Hs). now exists o. Qed.

Lemma has_superseder_superseded (rows : list Certificate.t) (c : Certificate.t) :
  no_self_supersession rows -> has_superseder rows c -> superseded rows c.
Proof.
  intros Hc (o & Ho & Hs). exists o. repeat split; trivial.
  intros E. apply (proj1 (supersedes_self_true o) (Hc o Ho)). now rewrite E.
Qed.

Lemma valid_at_true (rows : list Certificate.t) (today : date) (c : Certificate.t) :
  valid_at rows today c = true
  <-> ~ has_superseder rows c /\ not_expired today c.
Proof.
  unfold valid_at, not_expired.
  rewrite andb_true_iff, count_zero, supersedes_set_nil.
  destruct (Certificate.valid_until c) as [vu|].
  - split.
    + intros (Hv & Hs). split; trivial. right. eauto.
    + intros (Hs & [Hn | (vu' & [= <-] & Hv)]); [discriminate | auto].
  - split; [intros (_ & Hs) | intros (Hs & _)]; auto.
Qed.

(** C1. For every certificate [c] and every day [today] shown by the clock,
    in a store that satisfies the constraint [supersedes_self]:
    [Certificate.valid] returns, and it returns [True] exactly when no other
    certificate's [supersedes] points to [c] and [valid_until] is absent or
    not before [today]. In particular a superseded certificate is invalid
    whatever its [valid_until], and a certificate that is not superseded
    and has [valid_until] equal to [today] is valid. *)
Theorem valid_iff_not_superseded_and_not_expired
    (w : World) (today : date) (c : Certificate.t) :
  clock w (reads w) = today ->
  no_self_supersession (certificate_table w) ->
  exists b w',
    Certificate_valid c w = (Return b, w')
    /\ (b = true <-> ~ superseded (certificate_table w) c /\ not_expired today c)
    /\ (superseded (certificate_table w) c -> b = false)
    /\ (~ superseded (certificate_table w) c ->
        Certificate.valid_until c = Some today -> b = true).
Proof.
  intros Ht Hc. rewrite Certificate_valid_run, Ht.
  set (rows := certificate_table w). set (b := valid_at rows today c).
  assert (Hb : b = true <-> ~ superseded rows c /\ not_expired today c).
  { unfold b. rewrite valid_at_true. apply and_iff_compat_r. split; intros H S.
    - now apply H, superseded_has_superseder.
    - now apply H, has_superseder_superseded. }
  exists b. eexists. split; [reflexivity|]. split; [exact Hb|]. split.
  - intros S. destruct b; trivial. now destruct (proj1 Hb eq_refl).
  - intros S Hvu. apply Hb. split; trivial. right. exists today. split; trivial.
    apply date_leb_refl.
Qed.

(** ** The expiry notifier *)

Lemma notices_about (today : date) (clk : nat -> date) (l : list Certificate.t) :
  forall n,
    (forall x, In x l -> exists vu, Certificate.valid_until x = Some vu) ->
    Forall2 notice_about l (notices today clk n l).
Proof.
  induction l as [|x l IH]; intros n H; simpl; [constructor|].
  destruct (H x (or_introl eq_refl)) as (vu & Hvu). rewrite Hvu.
  constructor.
  - unfold notice_about. destruct (PyDate.geb vu (clk n)); eauto.
  - apply IH. intros y Hy. apply H. now right.
Qed.

Lemma expiring_has_valid_until (rows : list Certificate.t) (limit : date)
    (x : Certificate.t) :
  In x (expiring_certificates rows limit) ->
  exists vu, Certificate.valid_until x = Some vu.
Proof. intros H. apply expiring_In in H as (_ & (vu & Hvu & _) & _). eauto. Qed.

Lemma NoDup_of_map {A B} (f : A -> B) (l : list A) :
  NoDup (map f l) -> NoDup l.
Proof.
  induction l as [|x l IH]; intros H; [constructor|].
  inversion H as [|? ? Hx Hl]; subst. constructor; auto.
  intros Hin. apply Hx. now apply in_map.
Qed.

Lemma expiring_NoDup (rows : list Certificate.t) (limit : date) :
  NoDup (map Certificate.id rows) -> NoDup (expiring_certificates rows limit).
Proof.
  intros H. apply NoDup_of_map in H. unfold expiring_certificates.
  rewrite left_join_where.
  eapply Permutation_NoDup; [symmetry; apply order_by_perm|].
  now apply NoDup_filter.
Qed.

(** C2. When every reading of the clock shows [today], the primary key is
    unique and the store satisfies [supersedes_self]: for every stored
    certificate [c] that is not superseded and whose [valid_until] is a date
    [vu] with [vu <= today + EXPIRY_WARNING_THRESHOLD], the view returns and
    [c] is met exactly once by its loop, which adds one message per
    certificate it meets. The message at the place of [c] has level error
    and reads [Certificate <strong>(c in quotes)</strong> has expired on
    (vu in ISO format)!] when [vu < today]; otherwise it has level warning
    and reads [Certificate <strong>(c in quotes)</strong> expires in
    <strong>(N)</strong> days!], where [N] is [(vu - today).days] in
    decimal. Here [c] is written as its name, then [ / ] and its number
    when it has one, then its issue date in ISO format between
    parentheses. *)
Theorem one_notice_per_expiring_certificate
    (w : World) (today limit vu : date) (c : Certificate.t) :
  clock_shows w today ->
  PyDate.add today EXPIRY_WARNING_THRESHOLD = Some limit ->
  NoDup (map Certificate.id (certificate_table w)) ->
  no_self_supersession (certificate_table w) ->
  In c (certificate_table w) ->
  ~ superseded (certificate_table w) c ->
  Certificate.valid_until c = Some vu ->
  PyDate.leb vu limit = true ->
  exists w' before after_ notices_before notices_after,
    check_certificates_expiry w = (Return tt, w')
    /\ expiring_certificates (certificate_table w) limit = before ++ c :: after_
    /\ ~ In c before /\ ~ In c after_
    /\ Forall2 (notice_of today) before notices_before
    /\ Forall2 (notice_of today) after_ notices_after
    /\ storage w'
       = storage w ++ notices_before
         ++ [let quote := String "034"%char EmptyString in
             let certificate :=
               (Certificate.name c
                ++ (if String.eqb (Certificate.number c) EmptyString
                    then EmptyString
                    else " / " ++ Certificate.number c)
                ++ " (" ++ PyDate.isoformat (Certificate.issue_date c) ++ ")")%string in
             if PyDate.ltb vu today
             then mkMessage ERROR
                    ("Certificate <strong>" ++ quote ++ certificate ++ quote
                     ++ "</strong> has expired on " ++ PyDate.isoformat vu
                     ++ "!")%string
             else mkMessage WARNING
                    ("Certificate <strong>" ++ quote ++ certificate ++ quote
                     ++ "</strong> expires in <strong>"
                     ++ PyDate.str_int (PyDate.toordinal vu - PyDate.toordinal today)
                     ++ "</strong> days!")%string]
         ++ notices_after.
Proof.
  intros Hclk Hl Hpk Hself Hin Hsup Hvu Hle.
  assert (Ht : clock w (reads w) = today) by apply (Hclk O).
  pose proof (check_certificates_expiry_run w limit) as Hrun.
  rewrite Ht in Hrun. specialize (Hrun Hl). cbv zeta in Hrun.
  set (qs := expiring_certificates (certificate_table w) limit) in *.
  assert (Hq : In c qs).
  { apply expiring_In. repeat split; eauto.
    intros S. now apply Hsup, has_superseder_superseded. }
  destruct (in_split _ _ Hq) as (l1 & l2 & E).
  pose proof (expiring_NoDup _ limit Hpk) as Hnd. fold qs in Hnd. rewrite E in Hnd.
  pose proof (NoDup_remove_2 _ _ _ Hnd) as Hnot.
  assert (HF : Forall2 (notice_of today) qs
                 (notices today (clock w) (S (reads w)) qs)).
  { apply notices_frozen.
    - intros k. rewrite <- (Hclk (S k)). f_equal. lia.
    - intros x. apply expiring_has_valid_until. }
  rewrite E in HF. apply Forall2_app_inv_l in HF as (n1 & n' & H1 & H2 & En).
  inversion H2 as [|? m ? n2 Hm H2' ]; subst n'.
  destruct Hm as (vu' & Hvu' & ->). rewrite Hvu in Hvu'. injection Hvu' as <-.
  exists (advance (S (List.length qs)) (notices today (clock w) (S (reads w)) qs) w),
    l1, l2, n1, n2.
  split; [exact Hrun|]. split; [exact E|].
  split; [intros Hc1; apply Hnot, in_or_app; now left|].
  split; [intros Hc2; apply Hnot, in_or_app; now right|].
  split; [exact H1|]. split; [exact H2'|].
  unfold advance. cbn [storage]. rewrite E, En. do 3 f_equal.
  unfold expiry_notice, expired_text, expires_text, Certificate_str,
    str_optional_date, dquote, PyDate.sub_days.
  rewrite Hvu. reflexivity.
Qed.

(** C8. Whatever the date and the threshold, the queryset the view loops
    over contains no certificate that some certificate supersedes and none
    without a [valid_until]; and the view adds its messages one per
    certificate of that queryset, each about that certificate, or raises
    before it adds any. *)
Theorem no_notice_when_superseded_or_open_ended (w : World) (c : Certificate.t) :
  has_superseder (certificate_table w) c \/ Certificate.valid_until c = None ->
  (forall limit, ~ In c (expiring_certificates (certificate_table w) limit))
  /\ match PyDate.add (clock w (reads w)) EXPIRY_WARNING_THRESHOLD with
     | Some limit =>
         exists new w',
           check_certificates_expiry w = (Return tt, w')
           /\ storage w' = storage w ++ new
           /\ Forall2 notice_about
                (expiring_certificates (certificate_table w) limit) new
     | None =>
         exists w',
           check_certificates_expiry w = (Raise ValueError, w')
           /\ storage w' = storage w
     end.
Proof.
  intros H. split.
  - intros limit Hin. apply expiring_In in Hin as (_ & (vu & Hvu & _) & Hs).
    destruct H as [Hsup | Hnone]; [auto | congruence].
  - destruct (PyDate.add _ _) as [limit|] eqn:Hl.
    + eexists. eexists. split; [exact (check_certificates_expiry_run w limit Hl)|].
      split; [reflexivity|].
      apply notices_about. intros x. apply expiring_has_valid_until.
    + clear H. eexists. split; [exact (check_certificates_expiry_raises w Hl) | reflexivity].
Qed.

Lemma ordering_reads (a b : Certificate.t) :
  Certificate.ordering a b = true ->
  String.leb (Certificate.name a) (Certificate.name b) = true
  /\ (Certificate.name a = Certificate.name b ->
      Certificate.supersedes a = Certificate.supersedes b ->
      forall u v,
        Certificate.valid_until a = Some u -> Certificate.valid_until b = Some v ->
        PyDate.geb u v = true).
Proof.
  unfold Certificate.ordering, Certificate.compare, String.leb. intros H. split.
  - destruct (String.compare (Certificate.name a) (Certificate.name b));
      trivial; discriminate.
  - intros En Es u v Hu Hv. revert H.
    rewrite En, Es, string_compare_refl, desc_nulls_last_refl, Hu, Hv.
    unfold PyDate.geb, PyDate.leb. simpl.
    now destruct (PyDate.compare v u).
Qed.

(** C7, as the code has it. The messages the view adds are one per
    certificate of its queryset and in the order of the queryset, which is
    the default ordering of [Certificate]: ascending [name], then descending
    [supersedes] with NULL last, then descending [valid_until]; so of two
    certificates with the same name and the same [supersedes], the one
    that expires later is reported first. Nothing groups the messages by
    level. *)
Theorem notices_follow_default_ordering (w : World) (limit : date) :
  PyDate.add (clock w (reads w)) EXPIRY_WARNING_THRESHOLD = Some limit ->
  exists new w',
    check_certificates_expiry w = (Return tt, w')
    /\ storage w' = storage w ++ new
    /\ Forall2 notice_about (expiring_certificates (certificate_table w) limit) new
    /\ StronglySorted
         (fun a b =>
            Certificate.ordering a b = true
            /\ String.leb (Certificate.name a) (Certificate.name b) = true
            /\ (Certificate.name a = Certificate.name b ->
                Certificate.supersedes a = Certificate.supersedes b ->
                forall u v,
                  Certificate.valid_until a = Some u ->
                  Certificate.valid_until b = Some v ->
                  PyDate.geb u v = true))
         (expiring_certificates (certificate_table w) limit).
Proof.
  intros Hl. eexists. eexists.
  split; [exact (check_certificates_expiry_run w limit Hl)|].
  split; [reflexivity|]. split.
  - apply notices_about. intros x. apply expiring_has_valid_until.
  - pose proof (expiring_sorted (certificate_table w) limit) as Hs.
    induction Hs as [|a l Hs IH Ha]; constructor; trivial.
    eapply Forall_impl; [|exact Ha].
    intros b Hab. split; [exact Hab | now apply ordering_reads].
Qed.

(** ** The evaluators are functions of the snapshot and of the clock *)

Lemma advance_zero (w : World) : advance 0 [] w = w.
Proof. unfold advance. simpl. rewrite app_nil_r. now destruct w. Qed.

Lemma tick_advance (w : World) : tick w = advance 1 [] w.
Proof. unfold advance, tick. simpl. now rewrite app_nil_r. Qed.

Lemma same_snapshot_advance (k : nat) (l1 l2 : list Message) (w1 w2 : World) :
  same_snapshot w1 w2 -> same_snapshot (advance k l1 w1) (advance k l2 w2).
Proof.
  intros (Hc & He & Hk). repeat split; trivial.
  intros j. simpl. replace (j + (k + reads w1))%nat with ((j + k) + reads w1)%nat by lia.
  replace (j + (k + reads w2))%nat with ((j + k) + reads w2)%nat by lia.
  apply Hk.
Qed.

Lemma snapshot_ret {A} (a : A) : snapshot_function (ret a).
Proof.
  intros w1 w2 _. exists (Return a), O, []. unfold ret. now rewrite !advance_zero.
Qed.

Lemma snapshot_raise {A} (e : exn) : snapshot_function (@raise A e).
Proof.
  intros w1 w2 _. exists (Raise e), O, []. unfold raise. now rewrite !advance_zero.
Qed.

Lemma snapshot_bind {A B} (m : M A) (f : A -> M B) :
  snapshot_function m -> (forall a, snapshot_function (f a)) ->
  snapshot_function (bind m f).
Proof.
  intros Hm Hf w1 w2 Hs. destruct (Hm w1 w2 Hs) as (r & k & new & E1 & E2).
  unfold bind. rewrite E1, E2. destruct r as [a|e].
  - destruct (Hf a _ _ (same_snapshot_advance k new new _ _ Hs))
      as (r' & k' & new' & F1 & F2).
    exists r', (k + k')%nat, (new ++ new'). now rewrite F1, F2, !advance_advance.
  - now exists (Raise e), k, new.
Qed.

Lemma snapshot_now_date : snapshot_function now_date.
Proof.
  intros w1 w2 (_ & _ & Hk). exists (Return (clock w1 (reads w1))), 1%nat, [].
  unfold now_date. rewrite !tick_advance. split; trivial.
  pose proof (Hk O) as H0. simpl in H0. now rewrite H0.
Qed.

Lemma snapshot_Certificate_objects : snapshot_function Certificate_objects.
Proof.
  intros w1 w2 (Hc & _). exists (Return (certificate_table w1)), O, [].
  unfold Certificate_objects. now rewrite !advance_zero, Hc.
Qed.

Lemma snapshot_LogEntry_objects : snapshot_function LogEntry_objects.
Proof.
  intros w1 w2 (_ & He & _). exists (Return (logentry_table w1)), O, [].
  unfold LogEntry_objects. now rewrite !advance_zero, He.
Qed.

Lemma snapshot_add_message (lvl : Level) (msg : string) :
  snapshot_function (add_message lvl msg).
Proof.
  intros w1 w2 _. now exists (Return tt), O, [mkMessage lvl msg].
Qed.

Lemma snapshot_for_each {A} (l : list A) (body : A -> M unit) :
  (forall x, snapshot_function (body x)) -> snapshot_function (for_each l body).
Proof.
  intros Hb. induction l as [|x l IH]; simpl.
  - apply snapshot_ret.
  - apply snapshot_bind; auto.
Qed.

Create HintDb snapshot.

#[local] Hint Resolve snapshot_ret snapshot_raise snapshot_now_date
  snapshot_Certificate_objects snapshot_LogEntry_objects snapshot_add_message
  : snapshot.

Ltac snapshot_step :=
  first
    [ apply snapshot_bind; [|intros ?]
    | apply snapshot_for_each; intros ?
    | solve [auto with snapshot]
    | match goal with
      | |- snapshot_function (match ?x with _ => _ end) => destruct x
      end ].

Lemma snapshot_Certificate_valid (c : Certificate.t) :
  snapshot_function (Certificate_valid c).
Proof.
  unfold Certificate_valid, Certificate_supersedes_set. repeat snapshot_step.
Qed.

Lemma snapshot_Certificate_superseded_by (c : Certificate.t) :
  snapshot_function (Certificate_superseded_by c).
Proof.
  unfold Certificate_superseded_by, Certificate_supersedes_set. repeat snapshot_step.
Qed.

Lemma snapshot_notify_certificate (today : date) (c : Certificate.t) :
  snapshot_function (notify_certificate today c).
Proof.
  unfold notify_certificate, messages_error, messages_warning.
  apply snapshot_bind; [apply snapshot_Certificate_valid | intros v].
  repeat snapshot_step.
Qed.

Lemma snapshot_check_certificates_expiry :
  snapshot_function check_certificates_expiry.
Proof.
  unfold check_certificates_expiry.
  apply snapshot_bind; [auto with snapshot | intros today].
  apply snapshot_bind; [repeat snapshot_step | intros limit].
  apply snapshot_bind; [auto with snapshot | intros rows].
  cbv zeta. destruct (exists_ _); [|auto with snapshot].
  apply snapshot_for_each. intros x. apply snapshot_notify_certificate.
Qed.

Lemma snapshot_Aircraft_currency_status {R : Type}
    (evaluator : list LogEntry.t -> M R) (a : Aircraft.t) :
  (forall flights, snapshot_function (evaluator flights)) ->
  snapshot_function (Aircraft_currency_status evaluator a).
Proof.
  intros He. unfold Aircraft_currency_status.
  destruct (Aircraft.currency_required a); [|auto with snapshot].
  apply snapshot_bind; [auto with snapshot | intros rows].
  apply snapshot_bind; [apply He | intros s]. auto with snapshot.
Qed.

(** C9. [Certificate.valid], [Certificate.superseded_by] and the view
    [check_certificates_expiry] are functions of the snapshot and of the
    dates the clock shows: run in two worlds with the same tables and the
    same dates on the clock, whatever else differs, they give the same
    outcome and add the same messages, and they leave both tables as they
    were. [Aircraft.currency_status] is such a function too whenever the
    evaluator it calls is one. *)
Theorem evaluators_depend_only_on_snapshot_and_clock :
  (forall c, snapshot_function (Certificate_valid c))
  /\ (forall c, snapshot_function (Certificate_superseded_by c))
  /\ snapshot_function check_certificates_expiry
  /\ (forall (R : Type) (evaluator : list LogEntry.t -> M R) (a : Aircraft.t),
        (forall flights, snapshot_function (evaluator flights)) ->
        snapshot_function (Aircraft_currency_status evaluator a)).
Proof.
  split; [exact snapshot_Certificate_valid|].
  split; [exact snapshot_Certificate_superseded_by|].
  split; [exact snapshot_check_certificates_expiry|].
  intros R. exact snapshot_Aircraft_currency_status.
Qed.

(** ** Invariants of the stored tables *)

Section UpsertFacts.
Context {A : Type} (pk : A -> Z).

Lemma others_In (x o : A) (rows : list A) :
  In o (others pk x rows) <-> In o rows /\ pk o <> pk x.
Proof.
  unfold others. rewrite filter_In, negb_true_iff, Z.eqb_neq. tauto.
Qed.

Lemma others_NoDup {K} (col : A -> K) (x : A) (rows : list A) :
  NoDup (map col rows) -> NoDup (map col (others pk x rows)).
Proof.
  unfold others. induction rows as [|o rows IH]; simpl; intros H; trivial.
  inversion H as [|? ? Ho Hr]; subst.
  destruct (negb (pk o =? pk x)); simpl; auto.
  constructor; auto. intros Hin. apply Ho.
  apply in_map_iff in Hin as (y & <- & Hy). apply filter_In in Hy as (Hy & _).
  now apply in_map.
Qed.

Lemma upsert_In (x o : A) (rows : list A) :
  In o (upsert pk x rows) -> o = x \/ (In o rows /\ pk o <> pk x).
Proof.
  unfold upsert. destruct (existsb _ rows) eqn:E.
  - intros H. apply in_map_iff in H as (y & Hy & Hin).
    destruct (Z.eqb_spec (pk y) (pk x)); subst; auto.
  - intros H. apply in_app_or in H as [H | [<- | []]]; auto.
    right. split; trivial. intros Heq.
    assert (F : existsb (fun o => pk o =? pk x) rows = true)
      by (apply existsb_exists; exists o; split; trivial; now apply Z.eqb_eq).
    congruence.
Qed.

(** Writing [x] keeps a column free of duplicates when no other row has
    the value of [x] in it. *)
Lemma upsert_NoDup {K} (col : A -> K) (x : A) (rows : list A) :
  NoDup (map pk rows) -> NoDup (map col rows) ->
  (forall o, In o (others pk x rows) -> col o <> col x) ->
  NoDup (map col (upsert pk x rows)).
Proof.
  intros Hpk Hcol Hx. unfold upsert. destruct (existsb _ rows) eqn:E.
  - clear E. induction rows as [|o rows IH]; simpl; [constructor|].
    inversion Hpk as [|? ? Hpo Hpr]; inversion Hcol as [|? ? Hco Hcr]; subst.
    assert (Hx' : forall y, In y (others pk x rows) -> col y <> col x).
    { intros y Hy. apply Hx, others_In. apply others_In in Hy. simpl. tauto. }
    constructor; [|now apply IH].
    intros Hin. apply in_map_iff in Hin as (y & Ey & Hy).
    apply in_map_iff in Hy as (z & <- & Hz).
    destruct (Z.eqb_spec (pk o) (pk x)) as [Eo|No],
             (Z.eqb_spec (pk z) (pk x)) as [Ez|Nz].
    + apply Hpo. rewrite Eo, <- Ez. now apply in_map.
    + apply (Hx' z); [apply others_In; auto | trivial].
    + apply (Hx o); [apply others_In; simpl; auto | auto].
    + apply Hco. rewrite <- Ey. now apply in_map.
  - rewrite map_app. apply NoDup_app; trivial.
    + repeat constructor. intros [].
    + intros k Hk [<- | []].
      apply in_map_iff in Hk as (o & Eo & Ho). apply (Hx o); trivial.
      apply others_In. split; trivial. intros Heq.
      assert (F : existsb (fun o => pk o =? pk x) rows = true)
        by (apply existsb_exists; exists o; split; trivial; now apply Z.eqb_eq).
      congruence.
Qed.
End UpsertFacts.

Lemma NoDup_map_injective {A B} (f : A -> B) (l : list A) (x y : A) :
  NoDup (map f l) -> In x l -> In y l -> f x = f y -> x = y.
Proof.
  induction l as [|a l IH]; simpl; intros H Hx Hy E; [contradiction|].
  inversion H as [|? ? Ha Hl]; subst.
  destruct Hx as [<- | Hx], Hy as [<- | Hy]; trivial.
  - exfalso. apply Ha. rewrite E. now apply in_map.
  - exfalso. apply Ha. rewrite <- E. now apply in_map.
  - now apply IH.
Qed.

Lemma unique_in_true {K} (eqb : K -> K -> bool) (col : LogEntry.t -> K)
    (e : LogEntry.t) (rest : list LogEntry.t) :
  (forall a b, eqb a b = true <-> a = b) ->
  LogEntry.unique_in eqb col e rest = true ->
  forall o, In o rest -> col o <> col e.
Proof.
  intros Heqb H o Ho E. unfold LogEntry.unique_in in H.
  rewrite forallb_forall in H. specialize (H o Ho).
  apply negb_true_iff in H. apply Heqb in E. congruence.
Qed.

Lemma LogEntry_save_unique (e : LogEntry.t) (w : World) :
  logentry_keys_unique (logentry_table w) ->
  logentry_keys_unique (logentry_table (snd (LogEntry_save e w))).
Proof.
  intros (Hpk & Hdep & Harr). unfold LogEntry_save, LogEntry_violation.
  destruct (negb (LogEntry.arrival_after_departure e)); [now repeat split|].
  destruct (negb (LogEntry.copilot_not_pilot e)); [now repeat split|].
  destruct (negb (LogEntry.no_pic_no_xc e)); [now repeat split|].
  destruct (LogEntry.unique_in Z.eqb LogEntry.departure_time e _) eqn:Ud;
    [|now repeat split].
  destruct (LogEntry.unique_in Z.eqb LogEntry.arrival_time e _) eqn:Ua;
    [|now repeat split].
  simpl. repeat split; apply upsert_NoDup; trivial.
  - intros o Ho. now apply others_In in Ho.
  - now apply (unique_in_true _ _ _ _ Z.eqb_eq Ud).
  - now apply (unique_in_true _ _ _ _ Z.eqb_eq Ua).
Qed.

Lemma check_certificates_expiry_tables (w : World) :
  certificate_table (snd (check_certificates_expiry w)) = certificate_table w
  /\ logentry_table (snd (check_certificates_expiry w)) = logentry_table w.
Proof.
  destruct (PyDate.add (clock w (reads w)) EXPIRY_WARNING_THRESHOLD) as [limit|] eqn:E.
  - now rewrite (check_certificates_expiry_run w limit E).
  - now rewrite (check_certificates_expiry_raises w E).
Qed.

Lemma serve_unique (r : request) (w : World) :
  logentry_keys_unique (logentry_table w) ->
  logentry_keys_unique (logentry_table (snd (serve r w))).
Proof.
  intros H. destruct r as [e|e|c|c|]; simpl serve.
  - now apply LogEntry_save_unique.
  - destruct H as (Hpk & Hdep & Harr). simpl. repeat split; now apply others_NoDup.
  - unfold Certificate_save. now destruct (Certificate_violation _ _).
  - exact H.
  - now rewrite (proj2 (check_certificates_expiry_tables w)).
Qed.

Lemma after_unique (history : list request) :
  forall w,
    logentry_keys_unique (logentry_table w) ->
    logentry_keys_unique (logentry_table (after history w)).
Proof.
  unfold after. induction history as [|r history IH]; intros w H; simpl; trivial.
  now apply IH, serve_unique.
Qed.

(** C10. In every store that a history of requests builds from the empty
    database, the [departure_time] column holds no value twice and the
    [arrival_time] column holds no value twice: two stored log entries with
    the same departure time, or with the same arrival time, are one and the
    same entry. *)
Theorem log_entry_timestamps_unique (clk : nat -> date) (history : list request) :
  let rows := logentry_table (after history (empty_world clk)) in
  NoDup (map LogEntry.departure_time rows)
  /\ NoDup (map LogEntry.arrival_time rows)
  /\ forall e1 e2,
       In e1 rows -> In e2 rows ->
       LogEntry.departure_time e1 = LogEntry.departure_time e2
       \/ LogEntry.arrival_time e1 = LogEntry.arrival_time e2 ->
       e1 = e2.
Proof.
  intros rows.
  destruct (after_unique history (empty_world clk)) as (_ & Hdep & Harr).
  { repeat split; constructor. }
  fold rows in Hdep, Harr. repeat split; trivial.
  intros e1 e2 H1 H2 [E | E].
  - exact (NoDup_map_injective _ _ _ _ Hdep H1 H2 E).
  - exact (NoDup_map_injective _ _ _ _ Harr H1 H2 E).
Qed.

(** ** The warning threshold *)

Lemma days_before_year_succ (y : Z) :
  PyDate.days_before_year (y + 1) - PyDate.days_before_year y
  = if PyDate.isleap y then 366 else 365.
Proof.
  unfold PyDate.days_before_year, PyDate.isleap. cbv zeta.
  replace (y + 1 - 1) with y by lia.
  destruct (Z.eqb_spec (y mod 4) 0), (Z.eqb_spec (y mod 100) 0),
    (Z.eqb_spec (y mod 400) 0); cbn [negb andb orb];
    Z.div_mod_to_equations; lia.
Qed.

Ltac literal e :=
  match e with Zpos _ => idtac | Zneg _ => idtac | Z0 => idtac end.

(** Computes the operations of the calendar on integer literals, and leaves
    alone what mentions a variable. *)
Ltac fold_literals :=
  repeat
    (match goal with
     | |- context [?a + ?b] =>
         literal a; literal b; let v := eval cbv in (a + b) in change (a + b) with v
     | |- context [?a - ?b] =>
         literal a; literal b; let v := eval cbv in (a - b) in change (a - b) with v
     | |- context [?a =? ?b] =>
         literal a; literal b; let v := eval cbv in (a =? b) in change (a =? b) with v
     | |- context [?a <? ?b] =>
         literal a; literal b; let v := eval cbv in (a <? b) in change (a <? b) with v
     | |- context [PyDate.DAYS_BEFORE_MONTH ?a] =>
         literal a;
         let v := eval cbv in (PyDate.DAYS_BEFORE_MONTH a) in
         change (PyDate.DAYS_BEFORE_MONTH a) with v
     end; cbn [andb orb negb]; cbv iota).

Lemma three_months_ahead (today : date) :
  PyDate.wf today = true ->
  PyDate.year today < PyDate.MAXYEAR \/ PyDate.month today <= 9 ->
  exists limit,
    PyDate.add today EXPIRY_WARNING_THRESHOLD = Some limit
    /\ PyDate.wf limit = true
    /\ 89 <= PyDate.sub_days limit today <= 92.
Proof.
  destruct today as [y m d]. unfold PyDate.wf, PyDate.MINYEAR, PyDate.MAXYEAR.
  cbn [PyDate.year PyDate.month PyDate.day].
  rewrite !andb_true_iff, !Z.leb_le.
  intros (((((Hy1 & Hy2) & Hm1) & Hm2) & Hd1) & Hd2) Hov.
  pose proof (days_before_year_succ y) as Hyear.
  assert (Hm : m = 1 \/ m = 2 \/ m = 3 \/ m = 4 \/ m = 5 \/ m = 6 \/ m = 7
               \/ m = 8 \/ m = 9 \/ m = 10 \/ m = 11 \/ m = 12) by lia.
  clear Hm1 Hm2.
  unfold PyDate.add, EXPIRY_WARNING_THRESHOLD, PyDate.sub_days, PyDate.toordinal,
    PyDate.days_before_month, PyDate.days_in_month, PyDate.MINYEAR, PyDate.MAXYEAR in *.
  cbn [PyDate.year PyDate.month PyDate.day PyDate.years PyDate.months].
  replace (y + 0) with y by lia.
  revert Hd2.
  destruct Hm as [->|[->|[->|[->|[->|[->|[->|[->|[->|[->|[->| ->]]]]]]]]]]];
    fold_literals; intros Hd2.
  all: try (assert (R : (1 <=? y) && (y <=? 9999) = true)
              by (rewrite andb_true_iff, !Z.leb_le; lia); rewrite R).
  all: try (assert (R : (1 <=? y + 1) && (y + 1 <=? 9999) = true)
              by (rewrite andb_true_iff, !Z.leb_le; lia); rewrite R).
  all: eexists; (split; [reflexivity|]).
  all: cbn [PyDate.year PyDate.month PyDate.day]; fold_literals.
  all: destruct (PyDate.isleap y); destruct (PyDate.isleap (y + 1)); fold_literals.
  all: rewrite !andb_true_iff, !Z.leb_le; lia.
Qed.

Example three_months_can_be_89_days :
  PyDate.add (PyDate.mkdate 2023 1 31) EXPIRY_WARNING_THRESHOLD
  = Some (PyDate.mkdate 2023 4 30)
  /\ PyDate.sub_days (PyDate.mkdate 2023 4 30) (PyDate.mkdate 2023 1 31) = 89.
Proof. split; reflexivity. Qed.

Example three_months_can_be_92_days :
  PyDate.add (PyDate.mkdate 2023 5 1) EXPIRY_WARNING_THRESHOLD
  = Some (PyDate.mkdate 2023 8 1)
  /\ PyDate.sub_days (PyDate.mkdate 2023 8 1) (PyDate.mkdate 2023 5 1) = 92.
Proof. split; reflexivity. Qed.

(** C6, as the code has it. The threshold of the view is the module
    constant [relativedelta(months=3)], three calendar months: for every
    date [today] the clock can show, short of the last three months of year
    9999, [today + EXPIRY_WARNING_THRESHOLD] is a date between 89 and 92
    days after [today], and the view, which takes no threshold as an
    argument, loops over exactly the stored certificates that no
    certificate supersedes and whose [valid_until] is on or before that
    date. *)
Theorem threshold_is_three_calendar_months (w : World) (today : date) :
  clock w (reads w) = today ->
  PyDate.wf today = true ->
  PyDate.year today < PyDate.MAXYEAR \/ PyDate.month today <= 9 ->
  EXPIRY_WARNING_THRESHOLD = PyDate.mkdelta 0 3
  /\ exists limit new w',
       PyDate.add today EXPIRY_WARNING_THRESHOLD = Some limit
       /\ 89 <= PyDate.sub_days limit today <= 92
       /\ check_certificates_expiry w = (Return tt, w')
       /\ storage w' = storage w ++ new
       /\ Forall2 notice_about
            (expiring_certificates (certificate_table w) limit) new
       /\ forall c,
            In c (expiring_certificates (certificate_table w) limit)
            <-> In c (certificate_table w)
                /\ (exists vu, Certificate.valid_until c = Some vu
                               /\ PyDate.leb vu limit = true)
                /\ ~ has_superseder (certificate_table w) c.
Proof.
  intros Ht Hwf Hov. split; [reflexivity|].
  destruct (three_months_ahead today Hwf Hov) as (limit & Hl & _ & Hb).
  exists limit. rewrite <- Ht in Hl. eexists. eexists.
  split; [now rewrite <- Ht|]. split; [exact Hb|].
  split; [exact (check_certificates_expiry_run w limit Hl)|].
  split; [reflexivity|]. split.
  - apply notices_about. intros x. apply expiring_has_valid_until.
  - intros c. apply expiring_In.
Qed.

(** ** Supersession: what the code resolves and what the store rejects *)

Lemma supersedes_set_sorted (rows : list Certificate.t) (self : Certificate.t) :
  StronglySorted (fun a b => Certificate.ordering a b = true)
    (supersedes_set_of rows self).
Proof.
  apply Sorted_StronglySorted.
  - intros a b c. apply ordering_trans.
  - apply order_by_sorted, ordering_total.
Qed.

(** C3, as the code has it. For every store, with or without a cycle of
    supersessions, and every certificate, [Certificate.superseded_by] is a
    single look-up: it returns, leaves the world as it is, and gives the
    stored certificate whose [supersedes] points to the certificate and that
    comes first in the default ordering, or nothing when there is none. It
    follows no chain and raises no integrity error. *)
Theorem superseded_by_is_a_single_lookup (w : World) (c : Certificate.t) :
  exists r,
    Certificate_superseded_by c w = (Return r, w)
    /\ match r with
       | Some o =>
           In o (certificate_table w)
           /\ Certificate.supersedes o = Some (Certificate.id c)
           /\ forall o',
                In o' (certificate_table w) ->
                Certificate.supersedes o' = Some (Certificate.id c) ->
                Certificate.ordering o o' = true
       | None => ~ has_superseder (certificate_table w) c
       end.
Proof.
  rewrite Certificate_superseded_by_run. eexists. split; [reflexivity|].
  unfold first.
  pose proof (supersedes_set_sorted (certificate_table w) c) as Hs.
  pose proof (supersedes_set_In (certificate_table w) c) as Hin.
  destruct (supersedes_set_of (certificate_table w) c) as [|o l] eqn:E; simpl.
  - now apply supersedes_set_nil.
  - destruct (proj1 (Hin o) (or_introl eq_refl)) as (Ho & Hsup).
    repeat split; trivial. intros o' Ho' Hsup'.
    destruct (proj2 (Hin o') (conj Ho' Hsup')) as [<- | Hl].
    + now destruct (ordering_total o o).
    + inversion Hs as [|? ? _ Hall]; subst.
      rewrite Forall_forall in Hall. now apply Hall.
Qed.

Lemma follow_in_cycle (n : nat) :
  let w := world_on new_year_2024 [cycle_a; cycle_b] [] in
  forall c,
    c = cycle_a \/ c = cycle_b ->
    exists c',
      follow_superseded_by n c w = (Return c', w) /\ (c' = cycle_a \/ c' = cycle_b).
Proof.
  intros w. induction n as [|n IH]; intros c Hc.
  - exists c. now split.
  - destruct Hc as [-> | ->].
    + destruct (IH cycle_b (or_intror eq_refl)) as (c' & E & Hc').
      exists c'. split; trivial.
    + destruct (IH cycle_a (or_introl eq_refl)) as (c' & E & Hc').
      exists c'. split; trivial.
Qed.

(** C3 fails as stated: in a store of two certificates that supersede each
    other, [superseded_by] answers each with the other, and following the
    links, for any number of steps, returns a certificate that still has a
    successor; no step raises an integrity error. *)
Lemma cycle_is_followed_without_error :
  let w := world_on new_year_2024 [cycle_a; cycle_b] [] in
  Certificate_superseded_by cycle_a w = (Return (Some cycle_b), w)
  /\ Certificate_superseded_by cycle_b w = (Return (Some cycle_a), w)
  /\ (forall n, exists c next,
        follow_superseded_by n cycle_a w = (Return c, w)
        /\ Certificate_superseded_by c w = (Return (Some next), w))
  /\ ~ (exists n constraint,
          fst (follow_superseded_by n cycle_a w) = Raise (IntegrityError constraint)).
Proof.
  intros w. split; [reflexivity|]. split; [reflexivity|]. split.
  - intros n. destruct (follow_in_cycle n cycle_a (or_introl eq_refl))
      as (c & E & [-> | ->]).
    + now exists cycle_a, cycle_b.
    + now exists cycle_b, cycle_a.
  - intros (n & constraint & H).
    destruct (follow_in_cycle n cycle_a (or_introl eq_refl)) as (c & E & _).
    fold w in E. rewrite E in H. discriminate.
Qed.

Lemma Certificate_violation_none (c : Certificate.t) (rows : list Certificate.t) :
  Certificate_violation c rows = None -> Certificate.supersedes_self c = true.
Proof.
  unfold Certificate_violation.
  destruct (Certificate.validity_after_issue c); simpl; [|discriminate].
  now destruct (Certificate.supersedes_self c).
Qed.

Lemma serve_no_self_supersession (r : request) (w : World) :
  no_self_supersession (certificate_table w) ->
  no_self_supersession (certificate_table (snd (serve r w))).
Proof.
  intros H. destruct r as [e|e|c|c|]; simpl serve.
  - unfold LogEntry_save. now destruct (LogEntry_violation _ _).
  - exact H.
  - unfold Certificate_save.
    destruct (Certificate_violation c _) eqn:V; [exact H|].
    intros o Ho. simpl in Ho. apply upsert_In in Ho as [-> | (Ho & _)]; auto.
    now apply Certificate_violation_none in V.
  - intros o Ho. simpl in Ho. apply others_In in Ho as (Ho & _). auto.
  - now rewrite (proj1 (check_certificates_expiry_tables w)).
Qed.

Lemma after_no_self_supersession (history : list request) :
  forall w,
    no_self_supersession (certificate_table w) ->
    no_self_supersession (certificate_table (after history w)).
Proof.
  unfold after. induction history as [|r history IH]; intros w H; simpl; trivial.
  now apply IH, serve_no_self_supersession.
Qed.

Lemma stored_certificates_no_self_supersession
    (clk : nat -> date) (history : list request) :
  no_self_supersession (certificate_table (after history (empty_world clk))).
Proof. apply after_no_self_supersession. intros o []. Qed.

(** C4, as the code has it. A certificate whose [supersedes] is its own id
    is rejected where it is stored: saving it raises [IntegrityError] and
    writes nothing, so no store built by requests holds it and such a
    certificate only exists as an object in memory. [Certificate.valid] and
    [Certificate.superseded_by] validate nothing: given such a certificate
    over any store they return, with the answer they give for any
    certificate: [valid] is [True] exactly when no stored certificate has
    its [supersedes] on the id of the certificate and [valid_until] is
    absent or not before today, and [superseded_by] is nothing exactly when
    no stored certificate has its [supersedes] on that id. *)
Theorem self_supersession_rejected_by_store_not_by_resolver
    (w : World) (c : Certificate.t) :
  Certificate.supersedes c = Some (Certificate.id c) ->
  (exists constraint, Certificate_save c w = (Raise (IntegrityError constraint), w))
  /\ (forall clk history,
        ~ In c (certificate_table (after history (empty_world clk))))
  /\ (exists b w',
        Certificate_valid c w = (Return b, w')
        /\ (b = true <-> ~ has_superseder (certificate_table w) c
                         /\ not_expired (clock w (reads w)) c))
  /\ (exists r,
        Certificate_superseded_by c w = (Return r, w)
        /\ (r = None <-> ~ has_superseder (certificate_table w) c)).
Proof.
  intros Hself.
  assert (Hs : Certificate.supersedes_self c = false).
  { destruct (Certificate.supersedes_self c) eqn:E; trivial.
    now apply supersedes_self_true in E. }
  split; [|split; [|split]].
  - unfold Certificate_save, Certificate_violation. rewrite Hs.
    destruct (Certificate.validity_after_issue c); simpl; eauto.
  - intros clk history Hin.
    pose proof (stored_certificates_no_self_supersession clk history c Hin).
    congruence.
  - rewrite Certificate_valid_run. eexists. eexists.
    split; [reflexivity | apply valid_at_true].
  - rewrite Certificate_superseded_by_run. eexists. split; [reflexivity|].
    rewrite <- supersedes_set_nil. unfold first.
    destruct (supersedes_set_of (certificate_table w) c); simpl;
      split; congruence.
Qed.

(** C4 fails as stated: a store built by one save holds certificate 1 with
    no [supersedes]; for the same certificate in memory with [supersedes]
    set to its own id, over that store, [valid] returns [True] and
    [superseded_by] returns nothing, and neither raises. *)
Lemma self_supersession_is_resolved :
  let w := after [SaveCertificate (without_supersedes own_successor)]
             (empty_world (fun _ => new_year_2024)) in
  Certificate.supersedes own_successor = Some (Certificate.id own_successor)
  /\ certificate_table w = [without_supersedes own_successor]
  /\ Certificate_valid own_successor w = (Return true, tick w)
  /\ Certificate_superseded_by own_successor w = (Return None, w).
Proof. repeat split. Qed.

(** ** The input of the currency evaluator *)

Lemma entries_of_aircraft_In (rows : list LogEntry.t) (a : Aircraft.t)
    (e : LogEntry.t) :
  In e (entries_of_aircraft rows a)
  <-> In e rows /\ LogEntry.aircraft e = Aircraft.id a.
Proof.
  unfold entries_of_aircraft. now rewrite order_by_In, filter_In, Z.eqb_eq.
Qed.

(** C5, as the code has it. When the aircraft requires currency, the
    evaluator is called once, on the stored log entries of that aircraft
    and on all of them, whoever the pilot: the entries are selected by
    aircraft alone. *)
Theorem currency_evaluator_gets_all_flights_of_the_aircraft
    {R : Type} (evaluator : list LogEntry.t -> M R) (a : Aircraft.t) (w : World) :
  Aircraft.currency_required a = true ->
  Aircraft_currency_status evaluator a w
  = bind (evaluator (entries_of_aircraft (logentry_table w) a))
         (fun status => ret (Some status)) w
  /\ forall e,
       In e (entries_of_aircraft (logentry_table w) a)
       <-> In e (logentry_table w) /\ LogEntry.aircraft e = Aircraft.id a.
Proof.
  intros Hc. split; [|intros e; apply entries_of_aircraft_In].
  unfold Aircraft_currency_status. now rewrite Hc.
Qed.

(** C5 fails as stated: with two flights of one aircraft by two pilots in
    the log, an evaluator that returns its input shows both flights in
    it. *)
Lemma currency_input_mixes_pilots :
  let w := world_on new_year_2024 [] [flight_of_pilot_1; flight_of_pilot_2] in
  Aircraft_currency_status ret (sample_aircraft 7 true) w
  = (Return (Some [flight_of_pilot_2; flight_of_pilot_1]), w)
  /\ ~ single_pilot_and_aircraft [flight_of_pilot_2; flight_of_pilot_1].
Proof.
  split; [reflexivity|]. intros H.
  destruct (H flight_of_pilot_1 flight_of_pilot_2) as (Hp & _); simpl; auto.
  discriminate.
Qed.

(** ** Concrete runs *)

(** The two notices of section 8 of the design: on 2024-01-01 a certificate
    valid until 2024-02-01 gets a warning with 31 days, one valid until
    2023-12-01 an error. *)
Example notices_on_new_year_2024 :
  storage (snd (check_certificates_expiry
                  (world_on new_year_2024 [medical_february; medical_december] [])))
  = [mkMessage WARNING (expires_text medical_february 31);
     mkMessage ERROR (expired_text medical_december)].
Proof. reflexivity. Qed.

Example expired_text_of_medical_december :
  expired_text medical_december
  = ("Certificate <strong>" ++ dquote ++ "Medical (2020-01-01)" ++ dquote
     ++ "</strong> has expired on 2023-12-01!")%string.
Proof. reflexivity. Qed.

Example valid_on_the_last_day_but_not_after :
  fst (Certificate_valid medical_february
         (world_on (PyDate.mkdate 2024 2 1) [medical_february] []))
  = Return true
  /\ fst (Certificate_valid medical_february
            (world_on (PyDate.mkdate 2024 2 2) [medical_february] []))
     = Return false.
Proof. split; reflexivity. Qed.

(** The view reads the clock once for [today] and [Certificate.valid] reads
    it again: when midnight falls between the two readings, a certificate
    that expires on the first date is reported as expired. *)
Example midnight_between_two_readings :
  let clk := fun n => match n with
                      | O => PyDate.mkdate 2024 2 1
                      | S _ => PyDate.mkdate 2024 2 2
                      end in
  storage (snd (check_certificates_expiry (mkWorld [medical_february] [] clk O [])))
  = [mkMessage ERROR (expired_text medical_february)].
Proof. reflexivity. Qed.

Example str_of_a_numbered_certificate :
  Certificate_str
    (Certificate.mk 9 "SPL" "DE.FCL.123" (PyDate.mkdate 2021 7 5) None "LBA"
       EmptyString None)
  = "SPL / DE.FCL.123 (2021-07-05)".
Proof. reflexivity. Qed.

(** A store with a cycle of supersessions satisfies every declared
    constraint: three saves build it. *)
Example cycle_can_be_stored :
  certificate_table
    (after [SaveCertificate
              (sample_certificate 2 "SPL" (Some (PyDate.mkdate 2026 1 1)) None);
            SaveCertificate cycle_a; SaveCertificate cycle_b]
       (empty_world (fun _ => new_year_2024)))
  = [cycle_b; cycle_a].
Proof. reflexivity. Qed.

(** C6 fails as stated: on 2024-01-01 a certificate that expires 91 days
    later, on 2024-04-01, gets a warning, so the threshold is not 90 days;
    and on 2023-01-31 a certificate that expires 90 days later, on
    2023-05-01, gets none. *)
Lemma threshold_is_not_ninety_days :
  (let w := world_on new_year_2024 [expires_april_first] [] in
   storage (snd (check_certificates_expiry w))
   = [mkMessage WARNING (expires_text expires_april_first 91)]
   /\ ~ PyDate.sub_days (PyDate.mkdate 2024 4 1) new_year_2024 <= 90)
  /\ (let today := PyDate.mkdate 2023 1 31 in
      let c := sample_certificate 1 "Medical" (Some (PyDate.mkdate 2023 5 1)) None in
      let w := world_on today [c] [] in
      check_certificates_expiry w = (Return tt, tick w)
      /\ ~ has_superseder [c] c
      /\ PyDate.sub_days (PyDate.mkdate 2023 5 1) today <= 90).
Proof.
  repeat split.
  - intros H. vm_compute in H. now apply H.
  - intros (o & [<- | []] & H). discriminate.
  - vm_compute. discriminate.
Qed.

(** C7 fails as stated: of three certificates of one name, the view first
    warns about the one that expires last, then about the one that expires
    before it, and reports the expired one at the end: warnings come before
    the error, and within the warnings [valid_until] descends. *)
Lemma notices_neither_grouped_nor_ascending :
  let w := world_on new_year_2024 medicals [] in
  let qs := expiring_certificates medicals (PyDate.mkdate 2024 4 1) in
  let new := storage (snd (check_certificates_expiry w)) in
  qs = [medical_march; medical_february; medical_december]
  /\ new = [mkMessage WARNING (expires_text medical_march 60);
            mkMessage WARNING (expires_text medical_february 31);
            mkMessage ERROR (expired_text medical_december)]
  /\ ~ errors_before_warnings new
  /\ ~ ascending_within_level qs new.
Proof.
  intros w qs new. split; [reflexivity|]. split; [reflexivity|]. split.
  - intros H.
    pose proof (H 2%nat 0%nat _ _ eq_refl eq_refl eq_refl eq_refl). lia.
  - intros H.
    pose proof (H 0%nat 1%nat _ _ _ _ _ _ (le_n 1) eq_refl eq_refl eq_refl eq_refl
                  eq_refl eq_refl eq_refl) as F.
    discriminate F.
Qed.

(** ** Instances of the theorems on the sample stores *)

Lemma valid_iff_not_superseded_and_not_expired_witness :
  let w := world_on new_year_2024 [rating_2022; rating_2023; licence] [] in
  clock w (reads w) = new_year_2024
  /\ no_self_supersession (certificate_table w)
  /\ exists b w',
       Certificate_valid rating_2022 w = (Return b, w')
       /\ (b = true <-> ~ superseded (certificate_table w) rating_2022
                        /\ not_expired new_year_2024 rating_2022)
       /\ (superseded (certificate_table w) rating_2022 -> b = false)
       /\ (~ superseded (certificate_table w) rating_2022 ->
           Certificate.valid_until rating_2022 = Some new_year_2024 -> b = true).
Proof.
  intros w.
  assert (H1 : clock w (reads w) = new_year_2024) by reflexivity.
  assert (H2 : no_self_supersession (certificate_table w))
    by (intros o [<- | [<- | [<- | []]]]; reflexivity).
  split; [exact H1|]. split; [exact H2|].
  exact (valid_iff_not_superseded_and_not_expired w new_year_2024 rating_2022 H1 H2).
Defined.

Lemma one_notice_per_expiring_certificate_witness :
  let w := world_on new_year_2024 medicals [] in
  let today := new_year_2024 in
  let limit := PyDate.mkdate 2024 4 1 in
  let c := medical_february in
  exists w' before after_ notices_before notices_after,
    check_certificates_expiry w = (Return tt, w')
    /\ expiring_certificates (certificate_table w) limit = before ++ c :: after_
    /\ ~ In c before /\ ~ In c after_
    /\ Forall2 (notice_of today) before notices_before
    /\ Forall2 (notice_of today) after_ notices_after
    /\ storage w'
       = storage w ++ notices_before
         ++ [mkMessage WARNING
               ("Certificate <strong>" ++ String "034"%char "Medical (2020-01-01)"
                ++ String "034"%char "</strong> expires in <strong>31</strong> days!")%string]
         ++ notices_after.
Proof.
  intros w today limit c.
  apply (one_notice_per_expiring_certificate w today limit (PyDate.mkdate 2024 2 1) c).
  - intros k. reflexivity.
  - reflexivity.
  - repeat constructor; simpl; intuition discriminate.
  - intros o [<- | [<- | [<- | []]]]; reflexivity.
  - simpl. auto.
  - intros (o & [<- | [<- | [<- | []]]] & _ & H); discriminate.
  - reflexivity.
  - reflexivity.
Defined.

Lemma no_notice_when_superseded_or_open_ended_witness :
  let w := world_on new_year_2024 [rating_2022; rating_2023; licence] [] in
  (has_superseder (certificate_table w) rating_2022
   \/ Certificate.valid_until rating_2022 = None)
  /\ (forall limit, ~ In rating_2022 (expiring_certificates (certificate_table w) limit))
  /\ exists new w',
       check_certificates_expiry w = (Return tt, w')
       /\ storage w' = storage w ++ new
       /\ Forall2 notice_about
            (expiring_certificates (certificate_table w) (PyDate.mkdate 2024 4 1)) new.
Proof.
  intros w.
  assert (H : has_superseder (certificate_table w) rating_2022
              \/ Certificate.valid_until rating_2022 = None).
  { left. exists rating_2023. split; [simpl; auto | reflexivity]. }
  split; [exact H|].
  exact (no_notice_when_superseded_or_open_ended w rating_2022 H).
Defined.

Lemma notices_follow_default_ordering_witness :
  let w := world_on new_year_2024 medicals [] in
  let limit := PyDate.mkdate 2024 4 1 in
  exists new w',
    check_certificates_expiry w = (Return tt, w')
    /\ storage w' = storage w ++ new
    /\ Forall2 notice_about (expiring_certificates (certificate_table w) limit) new
    /\ StronglySorted
         (fun a b =>
            Certificate.ordering a b = true
            /\ String.leb (Certificate.name a) (Certificate.name b) = true
            /\ (Certificate.name a = Certificate.name b ->
                Certificate.supersedes a = Certificate.supersedes b ->
                forall u v,
                  Certificate.valid_until a = Some u ->
                  Certificate.valid_until b = Some v ->
                  PyDate.geb u v = true))
         (expiring_certificates (certificate_table w) limit).
Proof.
  intros w limit. apply (notices_follow_default_ordering w limit). reflexivity.
Defined.

Lemma threshold_is_three_calendar_months_witness :
  let w := world_on new_year_2024 [expires_april_first] [] in
  EXPIRY_WARNING_THRESHOLD = PyDate.mkdelta 0 3
  /\ exists limit new w',
       PyDate.add new_year_2024 EXPIRY_WARNING_THRESHOLD = Some limit
       /\ 89 <= PyDate.sub_days limit new_year_2024 <= 92
       /\ check_certificates_expiry w = (Return tt, w')
       /\ storage w' = storage w ++ new
       /\ Forall2 notice_about
            (expiring_certificates (certificate_table w) limit) new
       /\ forall c,
            In c (expiring_certificates (certificate_table w) limit)
            <-> In c (certificate_table w)
                /\ (exists vu, Certificate.valid_until c = Some vu
                               /\ PyDate.leb vu limit = true)
                /\ ~ has_superseder (certificate_table w) c.
Proof.
  intros w. apply (threshold_is_three_calendar_months w new_year_2024).
  - reflexivity.
  - reflexivity.
  - left. reflexivity.
Defined.

Lemma self_supersession_rejected_witness :
  let w := after [SaveCertificate (without_supersedes own_successor)]
             (empty_world (fun _ => new_year_2024)) in
  let c := own_successor in
  Certificate.supersedes c = Some (Certificate.id c)
  /\ (exists constraint, Certificate_save c w = (Raise (IntegrityError constraint), w))
  /\ (forall clk history,
        ~ In c (certificate_table (after history (empty_world clk))))
  /\ (exists b w',
        Certificate_valid c w = (Return b, w')
        /\ (b = true <-> ~ has_superseder (certificate_table w) c
                         /\ not_expired (clock w (reads w)) c))
  /\ (exists r,
        Certificate_superseded_by c w = (Return r, w)
        /\ (r = None <-> ~ has_superseder (certificate_table w) c)).
Proof.
  intros w c.
  assert (H : Certificate.supersedes c = Some (Certificate.id c)) by reflexivity.
  split; [exact H|].
  exact (self_supersession_rejected_by_store_not_by_resolver w c H).
Defined.

Lemma currency_evaluator_input_witness :
  let w := world_on new_year_2024 [] [flight_of_pilot_1; flight_of_pilot_2] in
  let a := sample_aircraft 7 true in
  Aircraft_currency_status ret a w
  = bind (ret (entries_of_aircraft (logentry_table w) a))
         (fun status => ret (Some status)) w
  /\ forall e,
       In e (entries_of_aircraft (logentry_table w) a)
       <-> In e (logentry_table w) /\ LogEntry.aircraft e = Aircraft.id a.
Proof.
  intros w a.
  apply (currency_evaluator_gets_all_flights_of_the_aircraft ret a w). reflexivity.
Defined.

(** * More of the models and of the view *)

(** ** What the constraints keep true of the stored certificates *)

Lemma upsert_has {A} (pk : A -> Z) (x : A) (rows : list A) :
  In x (upsert pk x rows).
Proof.
  unfold upsert. destruct (existsb _ rows) eqn:E.
  - apply existsb_exists in E as (o & Ho & Eo). apply in_map_iff.
    exists o. now rewrite Eo.
  - apply in_or_app. right. now left.
Qed.

Lemma Certificate_violation_unique (c : Certificate.t) (rows : list Certificate.t) :
  Certificate_violation c rows = None ->
  Certificate.validity_after_issue c = true
  /\ Certificate.supersedes_unique c (others Certificate.id c rows) = true.
Proof.
  unfold Certificate_violation.
  destruct (Certificate.validity_after_issue c); simpl; [|discriminate].
  destruct (Certificate.supersedes_self c); simpl; [|discriminate].
  now destruct (Certificate.supersedes_unique c _).
Qed.

Lemma supersedes_unique_true (c o : Certificate.t) (rest : list Certificate.t)
    (target : Z) :
  Certificate.supersedes_unique c rest = true ->
  Certificate.supersedes c = Some target -> In o rest ->
  Certificate.supersedes o <> Some target.
Proof.
  unfold Certificate.supersedes_unique. intros H Hc Ho Eo. rewrite Hc in H.
  rewrite forallb_forall in H. specialize (H o Ho).
  apply negb_true_iff in H. apply sql_eq_true in Eo. congruence.
Qed.

Lemma Certificate_save_keys_unique (c : Certificate.t) (w : World) :
  certificate_keys_unique (certificate_table w) ->
  certificate_keys_unique (certificate_table (snd (Certificate_save c w))).
Proof.
  intros (Hpk & Hsup). unfold Certificate_save.
  destruct (Certificate_violation c _) eqn:V; [now split|].
  apply Certificate_violation_unique in V as (_ & Hu). simpl. split.
  - apply upsert_NoDup; trivial. intros o Ho. now apply others_In in Ho.
  - intros o1 o2 target H1 H2 E1 E2.
    apply upsert_In in H1 as [-> | (H1 & N1)], H2 as [-> | (H2 & N2)]; trivial.
    + exfalso. apply (supersedes_unique_true c o2 _ target Hu E1); trivial.
      now apply others_In.
    + exfalso. apply (supersedes_unique_true c o1 _ target Hu E2); trivial.
      now apply others_In.
    + now apply (Hsup o1 o2 target).
Qed.

Lemma serve_certificate_keys_unique (r : request) (w : World) :
  certificate_keys_unique (certificate_table w) ->
  certificate_keys_unique (certificate_table (snd (serve r w))).
Proof.
  intros H. destruct r as [e|e|c|c|]; simpl serve.
  - unfold LogEntry_save. now destruct (LogEntry_violation _ _).
  - exact H.
  - now apply Certificate_save_keys_unique.
  - destruct H as (Hpk & Hsup). simpl. split.
    + now apply others_NoDup.
    + intros o1 o2 target H1 H2. apply others_In in H1 as (H1 & _).
      apply others_In in H2 as (H2 & _). now apply Hsup.
  - now rewrite (proj1 (check_certificates_expiry_tables w)).
Qed.

Lemma after_certificate_keys_unique (history : list request) :
  forall w,
    certificate_keys_unique (certificate_table w) ->
    certificate_keys_unique (certificate_table (after history w)).
Proof.
  unfold after. induction history as [|r history IH]; intros w H; simpl; trivial.
  now apply IH, serve_certificate_keys_unique.
Qed.

Lemma empty_certificate_keys_unique : certificate_keys_unique [].
Proof. split; [constructor | intros ? ? ? []]. Qed.

(** X1. In every store that a history of requests builds from the empty
    database, the ids of the certificates are unique and every certificate
    is superseded by at most one stored certificate: two stored certificates
    whose [supersedes] point to the same certificate are the same row, and
    [supersedes_set.count()] is 0 or 1. *)
Theorem stored_certificate_has_one_superseder_at_most
    (clk : nat -> date) (history : list request) :
  let rows := certificate_table (after history (empty_world clk)) in
  NoDup (map Certificate.id rows)
  /\ (forall o1 o2 target,
        In o1 rows -> In o2 rows ->
        Certificate.supersedes o1 = Some target ->
        Certificate.supersedes o2 = Some target ->
        o1 = o2)
  /\ forall c, 0 <= count (supersedes_set_of rows c) <= 1.
Proof.
  intros rows.
  destruct (after_certificate_keys_unique history (empty_world clk)
              empty_certificate_keys_unique) as (Hpk & Hsup).
  fold rows in Hpk, Hsup.
  assert (Hone : forall o1 o2 target,
             In o1 rows -> In o2 rows ->
             Certificate.supersedes o1 = Some target ->
             Certificate.supersedes o2 = Some target -> o1 = o2).
  { intros o1 o2 target H1 H2 E1 E2.
    apply (NoDup_map_injective Certificate.id rows); trivial.
    now apply (Hsup o1 o2 target). }
  split; [exact Hpk|]. split; [exact Hone|].
  intros c. unfold count. split; [lia|].
  assert (Hnd : NoDup (supersedes_set_of rows c)).
  { unfold supersedes_set_of.
    eapply Permutation_NoDup; [symmetry; apply order_by_perm|].
    apply NoDup_filter. now apply NoDup_of_map in Hpk. }
  destruct (supersedes_set_of rows c) as [|o1 [|o2 l]] eqn:E; simpl; try lia.
  exfalso.
  assert (H1 : In o1 (supersedes_set_of rows c)) by (rewrite E; simpl; auto).
  assert (H2 : In o2 (supersedes_set_of rows c)) by (rewrite E; simpl; auto).
  apply supersedes_set_In in H1 as (H1 & E1), H2 as (H2 & E2).
  pose proof (Hone o1 o2 _ H1 H2 E1 E2) as <-.
  inversion Hnd as [|? ? Hno _]. apply Hno. now left.
Qed.

Lemma serve_validity_after_issue (r : request) (w : World) :
  (forall o, In o (certificate_table w) -> Certificate.validity_after_issue o = true) ->
  forall o, In o (certificate_table (snd (serve r w))) ->
            Certificate.validity_after_issue o = true.
Proof.
  intros H. destruct r as [e|e|c|c|]; simpl serve.
  - unfold LogEntry_save. now destruct (LogEntry_violation _ _).
  - exact H.
  - unfold Certificate_save.
    destruct (Certificate_violation c _) eqn:V; [exact H|].
    intros o Ho. simpl in Ho. apply upsert_In in Ho as [-> | (Ho & _)]; auto.
    now apply Certificate_violation_unique in V.
  - intros o Ho. simpl in Ho. apply others_In in Ho as (Ho & _). auto.
  - now rewrite (proj1 (check_certificates_expiry_tables w)).
Qed.

Lemma after_validity_after_issue (history : list request) :
  forall w,
    (forall o, In o (certificate_table w) ->
               Certificate.validity_after_issue o = true) ->
    forall o, In o (certificate_table (after history w)) ->
              Certificate.validity_after_issue o = true.
Proof.
  unfold after. induction history as [|r history IH]; intros w H; simpl; trivial.
  now apply IH, serve_validity_after_issue.
Qed.

Lemma date_ltb_leb (a b : date) : PyDate.ltb a b = true -> PyDate.leb a b = true.
Proof. unfold PyDate.ltb, PyDate.leb. now destruct (PyDate.compare a b). Qed.

(** X2. In every store that a history of requests builds from the empty
    database, a certificate with a [valid_until] has it after its
    [issue_date]; so [Certificate.valid], asked while the clock shows the
    issue date of a stored certificate that no certificate supersedes,
    returns [True]. *)
Theorem stored_certificate_valid_on_issue_date
    (clk : nat -> date) (history : list request) (c : Certificate.t) :
  let w := after history (empty_world clk) in
  In c (certificate_table w) ->
  (forall vu, Certificate.valid_until c = Some vu ->
              PyDate.gtb vu (Certificate.issue_date c) = true)
  /\ (clock w (reads w) = Certificate.issue_date c ->
      ~ has_superseder (certificate_table w) c ->
      exists w', Certificate_valid c w = (Return true, w')).
Proof.
  intros w Hin.
  assert (Hv : Certificate.validity_after_issue c = true).
  { apply (after_validity_after_issue history (empty_world clk)); trivial.
    intros o []. }
  assert (Hgt : forall vu, Certificate.valid_until c = Some vu ->
                           PyDate.gtb vu (Certificate.issue_date c) = true).
  { intros vu Hvu. unfold Certificate.validity_after_issue in Hv.
    now rewrite Hvu in Hv. }
  split; [exact Hgt|]. intros Ht Hs.
  rewrite Certificate_valid_run, Ht. eexists. f_equal. f_equal.
  apply valid_at_true. split; trivial. unfold not_expired.
  destruct (Certificate.valid_until c) as [vu|] eqn:Hvu; [right | now left].
  exists vu. split; trivial. apply date_ltb_leb. now apply Hgt.
Qed.

(** ** What the constraints keep true of the stored log entries *)

Lemma LogEntry_violation_checked (e : LogEntry.t) (rows : list LogEntry.t) :
  LogEntry_violation e rows = None -> logentry_checked e.
Proof.
  unfold LogEntry_violation, logentry_checked.
  destruct (LogEntry.arrival_after_departure e) eqn:Ha; simpl; [|discriminate].
  destruct (LogEntry.copilot_not_pilot e) eqn:Hc; simpl; [|discriminate].
  destruct (LogEntry.no_pic_no_xc e) eqn:Hx; simpl; [|discriminate].
  intros _. repeat split.
  - now apply Z.ltb_lt.
  - unfold LogEntry.copilot_not_pilot in Hc. apply negb_true_iff in Hc.
    intros E. apply sql_eq_true in E. congruence.
  - unfold LogEntry.no_pic_no_xc in Hx. intros Hxc.
    destruct (LogEntry.time_function e); trivial. now rewrite Hxc in Hx.
Qed.

Lemma serve_logentry_checked (r : request) (w : World) :
  (forall e, In e (logentry_table w) -> logentry_checked e) ->
  forall e, In e (logentry_table (snd (serve r w))) -> logentry_checked e.
Proof.
  intros H. destruct r as [x|x|c|c|]; simpl serve.
  - unfold LogEntry_save. destruct (LogEntry_violation x _) eqn:V; [exact H|].
    intros e He. simpl in He. apply upsert_In in He as [-> | (He & _)]; auto.
    now apply LogEntry_violation_checked in V.
  - intros e He. simpl in He. apply others_In in He as (He & _). auto.
  - unfold Certificate_save. now destruct (Certificate_violation _ _).
  - exact H.
  - now rewrite (proj2 (check_certificates_expiry_tables w)).
Qed.

Lemma after_logentry_checked (history : list request) :
  forall w,
    (forall x, In x (logentry_table w) -> logentry_checked x) ->
    forall x, In x (logentry_table (after history w)) -> logentry_checked x.
Proof.
  unfold after. induction history as [|r history IH]; intros w H; simpl; trivial.
  now apply IH, serve_logentry_checked.
Qed.

(** X3. In every store that a history of requests builds from the empty
    database, every log entry arrives after it departs, has a copilot other
    than its pilot (or none), and is cross-country only when flown as
    pilot-in-command. *)
Theorem stored_log_entries_satisfy_checks
    (clk : nat -> date) (history : list request) (e : LogEntry.t) :
  In e (logentry_table (after history (empty_world clk))) ->
  LogEntry.departure_time e < LogEntry.arrival_time e
  /\ LogEntry.copilot e <> Some (LogEntry.pilot e)
  /\ (LogEntry.cross_country e = true -> LogEntry.time_function e = PIC).
Proof.
  intros Hin.
  apply (after_logentry_checked history (empty_world clk)); trivial.
  intros x [].
Qed.

(** ** Saving a renewal *)

Lemma Certificate_save_returns (c : Certificate.t) (w w' : World) :
  Certificate_save c w = (Return tt, w') ->
  Certificate_violation c (certificate_table w) = None
  /\ w' = set_tables w (upsert Certificate.id c (certificate_table w))
            (logentry_table w).
Proof.
  unfold Certificate_save. destruct (Certificate_violation c _); [discriminate|].
  now intros [= <-].
Qed.

(** X4. When a certificate [c] whose [supersedes] is the id of [d] is saved
    into a store built by requests, and the save returns: [superseded_by]
    of [d] is [c] from then on, [Certificate.valid] of [d] returns [False],
    and no queryset of the expiry view contains [d]. *)
Theorem saved_renewal_supersedes
    (clk : nat -> date) (history : list request) (c d : Certificate.t) (w' : World) :
  let w := after history (empty_world clk) in
  Certificate.supersedes c = Some (Certificate.id d) ->
  Certificate_save c w = (Return tt, w') ->
  Certificate_superseded_by d w' = (Return (Some c), w')
  /\ (exists w'', Certificate_valid d w' = (Return false, w''))
  /\ forall limit, ~ In d (expiring_certificates (certificate_table w') limit).
Proof.
  intros w Hsup Hsave.
  pose proof (Certificate_save_keys_unique c w
                (after_certificate_keys_unique history (empty_world clk)
                   empty_certificate_keys_unique)) as (Hpk & Hone).
  rewrite Hsave in Hpk, Hone. simpl in Hpk, Hone.
  apply Certificate_save_returns in Hsave as (_ & Hw').
  assert (Hc : In c (certificate_table w')).
  { rewrite Hw'. simpl. apply upsert_has. }
  assert (Hhas : has_superseder (certificate_table w') d) by now exists c.
  split; [|split].
  - rewrite Certificate_superseded_by_run. do 2 f_equal. unfold first.
    destruct (supersedes_set_of (certificate_table w') d) as [|o l] eqn:E.
    + now apply supersedes_set_nil in E.
    + simpl. f_equal.
      assert (Ho : In o (supersedes_set_of (certificate_table w') d))
        by (rewrite E; now left).
      apply supersedes_set_In in Ho as (Ho & Eo).
      apply (NoDup_map_injective Certificate.id (certificate_table w')); trivial.
      now apply (Hone o c (Certificate.id d)).
  - rewrite Certificate_valid_run. eexists. f_equal. f_equal.
    destruct (valid_at _ _ d) eqn:V; trivial.
    apply valid_at_true in V. tauto.
  - intros limit Hin. apply expiring_In in Hin. tauto.
Qed.

(** X5. Saving a certificate whose [supersedes] is a target that another
    stored certificate already supersedes raises [IntegrityError] and
    leaves the world as it was. *)
Theorem second_superseder_is_rejected
    (w : World) (c o : Certificate.t) (target : Z) :
  In o (certificate_table w) ->
  Certificate.id o <> Certificate.id c ->
  Certificate.supersedes o = Some target ->
  Certificate.supersedes c = Some target ->
  exists constraint, Certificate_save c w = (Raise (IntegrityError constraint), w).
Proof.
  intros Ho Hid Eo Ec. unfold Certificate_save.
  destruct (Certificate_violation c (certificate_table w)) eqn:V; [eauto|].
  exfalso. apply Certificate_violation_unique in V as (_ & Hu).
  apply (supersedes_unique_true c o _ target Hu Ec); trivial.
  now apply others_In.
Qed.

(** ** The day count agrees with the order of the dates *)

Lemma days_before_year_mono (y1 y2 : Z) :
  y1 <= y2 -> PyDate.days_before_year y1 <= PyDate.days_before_year y2.
Proof.
  unfold PyDate.days_before_year. cbv zeta. intros H.
  Z.div_mod_to_equations. lia.
Qed.

Lemma wf_bounds (d : date) :
  PyDate.wf d = true ->
  1 <= PyDate.year d <= 9999
  /\ (PyDate.month d = 1 \/ PyDate.month d = 2 \/ PyDate.month d = 3
      \/ PyDate.month d = 4 \/ PyDate.month d = 5 \/ PyDate.month d = 6
      \/ PyDate.month d = 7 \/ PyDate.month d = 8 \/ PyDate.month d = 9
      \/ PyDate.month d = 10 \/ PyDate.month d = 11 \/ PyDate.month d = 12)
  /\ 1 <= PyDate.day d <= PyDate.days_in_month (PyDate.year d) (PyDate.month d).
Proof.
  unfold PyDate.wf, PyDate.MINYEAR, PyDate.MAXYEAR.
  rewrite !andb_true_iff, !Z.leb_le. lia.
Qed.

Lemma day_of_year_bounds (d : date) :
  PyDate.wf d = true ->
  1 <= PyDate.days_before_month (PyDate.year d) (PyDate.month d) + PyDate.day d
    <= if PyDate.isleap (PyDate.year d) then 366 else 365.
Proof.
  intros H. apply wf_bounds in H as (_ & Hm & Hd). revert Hd.
  destruct d as [y m dd]. cbn [PyDate.year PyDate.month PyDate.day] in *.
  unfold PyDate.days_before_month, PyDate.days_in_month.
  destruct Hm as [->|[->|[->|[->|[->|[->|[->|[->|[->|[->|[->| ->]]]]]]]]]]];
    fold_literals; destruct (PyDate.isleap y); fold_literals; lia.
Qed.

Lemma toordinal_lt (a b : date) :
  PyDate.wf a = true -> PyDate.wf b = true ->
  PyDate.compare a b = Lt -> PyDate.toordinal a < PyDate.toordinal b.
Proof.
  intros Ha Hb. pose proof (day_of_year_bounds a Ha) as Da.
  pose proof (day_of_year_bounds b Hb) as Db.
  apply wf_bounds in Ha as (_ & Hma & Hda), Hb as (_ & Hmb & Hdb).
  revert Da Db Hda Hdb Hma Hmb. unfold PyDate.compare, PyDate.toordinal.
  destruct a as [ya ma da], b as [yb mb db].
  cbn [PyDate.year PyDate.month PyDate.day].
  destruct (Z.compare_spec ya yb) as [Ey|Ly|Gy]; try discriminate.
  - subst yb. destruct (Z.compare_spec ma mb) as [Em|Lm|Gm]; try discriminate.
    + subst mb. rewrite Z.compare_lt_iff. lia.
    + intros Da Db Hda Hdb Hma Hmb _. revert Hda Hdb.
      unfold PyDate.days_before_month, PyDate.days_in_month.
      destruct Hma as [->|[->|[->|[->|[->|[->|[->|[->|[->|[->|[->| ->]]]]]]]]]]];
      destruct Hmb as [->|[->|[->|[->|[->|[->|[->|[->|[->|[->|[->| ->]]]]]]]]]]];
        try lia; fold_literals; destruct (PyDate.isleap ya); fold_literals; lia.
  - intros Da Db _ _ _ _ _.
    pose proof (days_before_year_succ ya) as Hs.
    pose proof (days_before_year_mono (ya + 1) yb ltac:(lia)) as Hm.
    destruct (PyDate.isleap ya); lia.
Qed.

Lemma toordinal_le (a b : date) :
  PyDate.wf a = true -> PyDate.wf b = true ->
  PyDate.leb a b = true -> PyDate.toordinal a <= PyDate.toordinal b.
Proof.
  intros Ha Hb. unfold PyDate.leb.
  destruct (PyDate.compare a b) eqn:E; try discriminate; intros _.
  - destruct a as [ya ma da], b as [yb mb db]. revert E.
    unfold PyDate.compare. simpl.
    destruct (Z.compare_spec ya yb); try discriminate.
    destruct (Z.compare_spec ma mb); try discriminate.
    destruct (Z.compare_spec da db); try discriminate. subst. lia.
  - apply Z.lt_le_incl. now apply toordinal_lt.
Qed.

(** ** What the notices say *)

Lemma Forall2_impl_In {A B} (R R' : A -> B -> Prop) (l : list A) (l' : list B) :
  (forall x y, In x l -> R x y -> R' x y) -> Forall2 R l l' -> Forall2 R' l l'.
Proof.
  intros H HF. induction HF as [|x y l l' Hxy HF IH]; constructor.
  - apply H; [now left | exact Hxy].
  - apply IH. intros a b Ha. apply H. now right.
Qed.

(** X6. When the clock shows [today] at every reading and the dates are
    dates of the calendar: every message the view adds is either an error
    about a certificate whose [valid_until] is before [today], or a warning
    whose number of days is the distance from [today] to [valid_until] and
    lies between 0 and 92. *)
Theorem warnings_count_between_0_and_92_days (w : World) (today : date) :
  clock_shows w today ->
  PyDate.wf today = true ->
  PyDate.year today < PyDate.MAXYEAR \/ PyDate.month today <= 9 ->
  (forall c vu, In c (certificate_table w) ->
                Certificate.valid_until c = Some vu -> PyDate.wf vu = true) ->
  exists limit new w',
    PyDate.add today EXPIRY_WARNING_THRESHOLD = Some limit
    /\ check_certificates_expiry w = (Return tt, w')
    /\ storage w' = storage w ++ new
    /\ Forall2
         (fun c m =>
            exists vu,
              Certificate.valid_until c = Some vu
              /\ ((PyDate.toordinal vu < PyDate.toordinal today
                   /\ m = mkMessage ERROR (expired_text c))
                  \/ exists days,
                       0 <= days <= 92
                       /\ PyDate.toordinal vu = PyDate.toordinal today + days
                       /\ m = mkMessage WARNING (expires_text c days)))
         (expiring_certificates (certificate_table w) limit) new.
Proof.
  intros Hclk Hwf Hov Hdates.
  destruct (three_months_ahead today Hwf Hov) as (limit & Hl & Hwl & Hb).
  assert (Ht : clock w (reads w) = today) by apply (Hclk O).
  pose proof (check_certificates_expiry_run w limit) as Hrun.
  rewrite Ht in Hrun. specialize (Hrun Hl). cbv zeta in Hrun.
  exists limit. eexists. eexists.
  split; [exact Hl|]. split; [exact Hrun|]. split; [reflexivity|].
  apply Forall2_impl_In with (R := notice_of today).
  - intros c m Hin (vu & Hvu & ->).
    apply expiring_In in Hin as (Hc & (vu' & Hvu' & Hle) & _).
    rewrite Hvu in Hvu'. injection Hvu' as <-.
    pose proof (Hdates c vu Hc Hvu) as Hwv.
    exists vu. split; trivial. unfold expiry_notice.
    destruct (PyDate.ltb vu today) eqn:Hlt.
    + left. split; trivial. apply toordinal_lt; trivial.
      unfold PyDate.ltb in Hlt. now destruct (PyDate.compare vu today).
    + right. exists (PyDate.sub_days vu today).
      rewrite date_ltb_geb in Hlt. apply negb_false_iff in Hlt.
      pose proof (toordinal_le today vu Hwf Hwv Hlt).
      pose proof (toordinal_le vu limit Hwv Hwl Hle).
      unfold PyDate.sub_days in *. repeat split; lia.
  - apply notices_frozen.
    + intros k. rewrite <- (Hclk (S k)). f_equal. lia.
    + intros x. apply expiring_has_valid_until.
Qed.

Lemma order_by_length {A} (leb : A -> A -> bool) (l : list A) :
  List.length (order_by leb l) = List.length l.
Proof. apply Permutation_length, order_by_perm. Qed.

(** X7. The view adds one message for each stored certificate that has a
    [valid_until] on or before the limit and that no certificate
    supersedes, and no other; so it adds none exactly when the table holds
    no such certificate, as when the table is empty. *)
Theorem one_message_per_eligible_certificate (w : World) (limit : date) :
  PyDate.add (clock w (reads w)) EXPIRY_WARNING_THRESHOLD = Some limit ->
  exists new w',
    check_certificates_expiry w = (Return tt, w')
    /\ storage w' = storage w ++ new
    /\ List.length new
       = List.length (filter (eligible (certificate_table w) limit)
                        (certificate_table w))
    /\ (new = [] <->
        forall c, In c (certificate_table w) ->
                  Certificate.valid_until c = None
                  \/ (exists vu, Certificate.valid_until c = Some vu
                                 /\ PyDate.leb vu limit = false)
                  \/ has_superseder (certificate_table w) c).
Proof.
  intros Hl. eexists. eexists.
  split; [exact (check_certificates_expiry_run w limit Hl)|].
  split; [reflexivity|].
  set (rows := certificate_table w).
  assert (HF : Forall2 notice_about (expiring_certificates rows limit)
                 (notices (clock w (reads w)) (clock w) (S (reads w))
                    (expiring_certificates rows limit))).
  { apply notices_about. intros x. apply expiring_has_valid_until. }
  apply Forall2_length in HF.
  assert (Hlen : List.length (expiring_certificates rows limit)
                 = List.length (filter (eligible rows limit) rows)).
  { unfold expiring_certificates. now rewrite order_by_length, left_join_where. }
  split; [congruence|]. split.
  - intros E c Hc. rewrite E in HF. simpl in HF.
    assert (Hn : ~ In c (expiring_certificates rows limit)).
    { destruct (expiring_certificates rows limit); [auto | discriminate]. }
    rewrite expiring_In in Hn.
    destruct (Certificate.valid_until c) as [vu|]; [|now left]. right.
    destruct (PyDate.leb vu limit) eqn:Hle; [|left; eauto]. right.
    destruct (filter (fun o => sql_eq (Certificate.supersedes o) (Certificate.id c)) rows)
      as [|o l] eqn:Ef.
    + exfalso. apply Hn. repeat split; eauto.
      intros (o & Ho & Eo).
      assert (Hin : In o (filter (fun o => sql_eq (Certificate.supersedes o)
                                              (Certificate.id c)) rows))
        by (apply filter_In; split; trivial; now apply sql_eq_true).
      now rewrite Ef in Hin.
    + assert (Hin : In o (filter (fun o => sql_eq (Certificate.supersedes o)
                                              (Certificate.id c)) rows))
        by (rewrite Ef; now left).
      apply filter_In in Hin as (Ho & Eo). exists o. split; trivial.
      now apply sql_eq_true.
  - intros H.
    destruct (expiring_certificates rows limit) as [|c l] eqn:E.
    + now destruct (notices _ _ _ []).
    + exfalso. assert (Hin : In c (expiring_certificates rows limit))
        by (rewrite E; now left).
      apply expiring_In in Hin as (Hc & (vu & Hvu & Hle) & Hs).
      destruct (H c Hc) as [Hn | [(vu' & Hvu' & Hf) | Hh]];
        [congruence | | contradiction].
      rewrite Hvu in Hvu'. injection Hvu' as <-. congruence.
Qed.

(** X8. [Certificate.valid] can only be lost as time passes: in one store,
    a certificate that is valid on a date is valid on every earlier date. *)
Theorem validity_is_only_lost_with_time (w1 w2 : World) (c : Certificate.t) :
  certificate_table w1 = certificate_table w2 ->
  PyDate.leb (clock w1 (reads w1)) (clock w2 (reads w2)) = true ->
  fst (Certificate_valid c w2) = Return true ->
  fst (Certificate_valid c w1) = Return true.
Proof.
  intros Hrows Hle. rewrite !Certificate_valid_run. cbn [fst].
  intros [= H]. f_equal. apply valid_at_true in H as (Hs & Hn).
  apply valid_at_true. rewrite Hrows. split; trivial.
  destruct Hn as [Hn | (vu & Hvu & Hge)]; [now left | right].
  exists vu. split; trivial. unfold PyDate.geb in *.
  now apply date_leb_trans with (clock w2 (reads w2)).
Qed.

Lemma same_snapshot_steady (w : World) (today : date) (k : nat)
    (new : list Message) :
  clock_shows w today -> same_snapshot w (advance k new w).
Proof.
  intros H. repeat split. intros j. simpl.
  rewrite (H j). symmetry.
  replace (j + (k + reads w))%nat with ((j + k) + reads w)%nat by lia. apply H.
Qed.

(** X9. The view keeps no record of what it has reported: run twice in a
    row while the clock shows the same date, it adds the same messages
    twice, after those that were in the storage. *)
Theorem view_run_twice_repeats_its_messages (w : World) (today limit : date) :
  clock_shows w today ->
  PyDate.add today EXPIRY_WARNING_THRESHOLD = Some limit ->
  exists new w1 w2,
    check_certificates_expiry w = (Return tt, w1)
    /\ check_certificates_expiry w1 = (Return tt, w2)
    /\ storage w1 = storage w ++ new
    /\ storage w2 = storage w ++ new ++ new
    /\ Forall2 (notice_of today)
         (expiring_certificates (certificate_table w) limit) new.
Proof.
  intros Hclk Hl.
  assert (Ht : clock w (reads w) = today) by apply (Hclk O).
  pose proof (check_certificates_expiry_run w limit) as Hrun.
  rewrite Ht in Hrun. specialize (Hrun Hl). cbv zeta in Hrun.
  set (qs := expiring_certificates (certificate_table w) limit) in *.
  set (new := notices today (clock w) (S (reads w)) qs) in *.
  set (w1 := advance (S (List.length qs)) new w) in *.
  destruct (snapshot_check_certificates_expiry w w1
              (same_snapshot_steady w today _ new Hclk))
    as (r & k & new' & E1 & E2).
  rewrite Hrun in E1.
  pose proof (f_equal fst E1) as Er. pose proof (f_equal snd E1) as Ew.
  cbn [fst snd] in Er, Ew. subst r.
  assert (Hnew : new' = new).
  { apply (f_equal storage) in Ew. unfold w1, advance in Ew. cbn [storage] in Ew.
    now apply app_inv_head in Ew. }
  subst new'. exists new, w1, (advance k new w1).
  split; [exact Hrun|]. split; [exact E2|]. split; [reflexivity|]. split.
  - unfold w1, advance. simpl. now rewrite app_assoc.
  - apply notices_frozen.
    + intros j. rewrite <- (Hclk (S j)). f_equal. lia.
    + intros x. apply expiring_has_valid_until.
Qed.

(** ** The flights handed to the currency evaluator *)

Lemma logentry_ordering_total (a b : LogEntry.t) :
  LogEntry.ordering a b = true \/ LogEntry.ordering b a = true.
Proof. unfold LogEntry.ordering. rewrite !Z.leb_le. lia. Qed.

Lemma logentry_ordering_trans (a b c : LogEntry.t) :
  LogEntry.ordering a b = true -> LogEntry.ordering b c = true ->
  LogEntry.ordering a c = true.
Proof. unfold LogEntry.ordering. rewrite !Z.leb_le. lia. Qed.

Lemma entries_of_aircraft_sorted (rows : list LogEntry.t) (a : Aircraft.t) :
  StronglySorted (fun x y => LogEntry.ordering x y = true)
    (entries_of_aircraft rows a).
Proof.
  apply Sorted_StronglySorted.
  - intros x y z. apply logentry_ordering_trans.
  - apply order_by_sorted, logentry_ordering_total.
Qed.

Lemma StronglySorted_strict {A} (R R' : A -> A -> Prop) (l : list A) :
  NoDup l ->
  (forall x y, In x l -> In y l -> x <> y -> R x y -> R' x y) ->
  StronglySorted R l -> StronglySorted R' l.
Proof.
  intros Hnd H Hs. induction Hs as [|x l Hs IH Hall]; constructor.
  - inversion Hnd; subst. apply IH; trivial.
    intros a b Ha Hb. apply H; now right.
  - inversion Hnd as [|? ? Hx Hl]; subst.
    rewrite Forall_forall in *. intros y Hy.
    apply H; [now left | now right | | now apply Hall].
    intros ->. contradiction.
Qed.

(** X10. In every store that a history of requests builds from the empty
    database, the flights that [Aircraft.currency_status] hands to the
    evaluator are the stored flights of the aircraft, each once, the latest
    arrival first: arrival times strictly descend along the sequence. *)
Theorem evaluator_input_is_latest_first
    (clk : nat -> date) (history : list request) (a : Aircraft.t) :
  let rows := logentry_table (after history (empty_world clk)) in
  let flights := entries_of_aircraft rows a in
  Permutation flights (filter (fun e => LogEntry.aircraft e =? Aircraft.id a) rows)
  /\ NoDup flights
  /\ StronglySorted
       (fun x y => LogEntry.arrival_time y < LogEntry.arrival_time x) flights.
Proof.
  intros rows flights.
  destruct (after_unique history (empty_world clk)) as (_ & _ & Harr).
  { repeat split; constructor. }
  fold rows in Harr.
  assert (Hperm : Permutation flights
                    (filter (fun e => LogEntry.aircraft e =? Aircraft.id a) rows))
    by apply order_by_perm.
  assert (Hnd : NoDup flights).
  { eapply Permutation_NoDup; [symmetry; exact Hperm|].
    apply NoDup_filter. now apply NoDup_of_map in Harr. }
  split; [exact Hperm|]. split; [exact Hnd|].
  apply StronglySorted_strict
    with (R := fun x y => LogEntry.ordering x y = true); trivial.
  - intros x y Hx Hy Hne Hxy. unfold LogEntry.ordering in Hxy.
    apply Z.leb_le in Hxy.
    assert (LogEntry.arrival_time x <> LogEntry.arrival_time y); [|lia].
    intros E. apply Hne.
    apply entries_of_aircraft_In in Hx as (Hx & _), Hy as (Hy & _).
    exact (NoDup_map_injective _ _ _ _ Harr Hx Hy E).
  - apply entries_of_aircraft_sorted.
Qed.

(** ** What the constraints let through, and what the saves reject *)

Lemma Certificate_violation_none_intro (c : Certificate.t)
    (rows : list Certificate.t) :
  Certificate.validity_after_issue c = true ->
  Certificate.supersedes_self c = true ->
  Certificate.supersedes_unique c (others Certificate.id c rows) = true ->
  Certificate_violation c rows = None.
Proof.
  intros Hv Hs Hu. unfold Certificate_violation. now rewrite Hv, Hs, Hu.
Qed.

Lemma Certificate_save_table (c : Certificate.t) (w : World) :
  Certificate_violation c (certificate_table w) = None ->
  certificate_table (snd (Certificate_save c w))
  = upsert Certificate.id c (certificate_table w).
Proof. intros H. unfold Certificate_save. now rewrite H. Qed.

(** X11. The declared constraints do not keep cycles of supersession out
    of the store: any two certificates with different ids that supersede
    each other and have their [valid_until] after their [issue_date] are
    both in the store after three saves into the empty database. *)
Theorem constraints_admit_a_cycle
    (clk : nat -> date) (a b : Certificate.t) :
  Certificate.id a <> Certificate.id b ->
  Certificate.supersedes a = Some (Certificate.id b) ->
  Certificate.supersedes b = Some (Certificate.id a) ->
  Certificate.validity_after_issue a = true ->
  Certificate.validity_after_issue b = true ->
  certificate_table
    (after [SaveCertificate (without_supersedes b); SaveCertificate a;
            SaveCertificate b] (empty_world clk))
  = [b; a].
Proof.
  intros Hid Ha Hb Va Vb.
  assert (Eab : (Certificate.id a =? Certificate.id b) = false)
    by now apply Z.eqb_neq.
  assert (Eba : (Certificate.id b =? Certificate.id a) = false)
    by (apply Z.eqb_neq; congruence).
  unfold after. cbn [fold_left serve].
  set (w0 := empty_world clk).
  set (w1 := snd (Certificate_save (without_supersedes b) w0)).
  set (w2 := snd (Certificate_save a w1)).
  assert (T1 : certificate_table w1 = [without_supersedes b]).
  { unfold w1. rewrite Certificate_save_table; [reflexivity|].
    apply Certificate_violation_none_intro; trivial. }
  assert (T2 : certificate_table w2 = [without_supersedes b; a]).
  { unfold w2. rewrite Certificate_save_table; rewrite T1.
    - unfold upsert. cbn [existsb without_supersedes Certificate.id].
      now rewrite Eba.
    - apply Certificate_violation_none_intro; trivial.
      + apply supersedes_self_true. rewrite Ha. congruence.
      + unfold Certificate.supersedes_unique, others. rewrite Ha.
        cbn [filter without_supersedes Certificate.id]. rewrite Eba.
        reflexivity. }
  rewrite Certificate_save_table; rewrite T2.
  - unfold upsert. cbn [existsb map without_supersedes Certificate.id].
    now rewrite Z.eqb_refl, Eab.
  - apply Certificate_violation_none_intro; trivial.
    + apply supersedes_self_true. rewrite Hb. congruence.
    + unfold Certificate.supersedes_unique, others. rewrite Hb.
      cbn [filter without_supersedes Certificate.id].
      rewrite Z.eqb_refl, Eab. cbn [negb forallb]. rewrite Ha.
      cbn [sql_eq]. now rewrite Eba.
Qed.

(** X12. Saving a log entry that does not arrive after it departs, or whose
    departure time or arrival time is that of another stored entry, raises
    [IntegrityError] and leaves the world as it was. *)
Theorem bad_log_entry_is_rejected (w : World) (e : LogEntry.t) :
  LogEntry.arrival_time e <= LogEntry.departure_time e
  \/ (exists o, In o (logentry_table w) /\ LogEntry.id o <> LogEntry.id e
                /\ (LogEntry.departure_time o = LogEntry.departure_time e
                    \/ LogEntry.arrival_time o = LogEntry.arrival_time e)) ->
  exists constraint, LogEntry_save e w = (Raise (IntegrityError constraint), w).
Proof.
  intros H. unfold LogEntry_save.
  destruct (LogEntry_violation e (logentry_table w)) eqn:V; [eauto|].
  exfalso. pose proof (LogEntry_violation_checked e _ V) as (Hlt & _).
  destruct H as [Hle | (o & Ho & Hid & Hdup)]; [lia|].
  revert V. unfold LogEntry_violation.
  destruct (negb (LogEntry.arrival_after_departure e)); [discriminate|].
  destruct (negb (LogEntry.copilot_not_pilot e)); [discriminate|].
  destruct (negb (LogEntry.no_pic_no_xc e)); [discriminate|].
  destruct (LogEntry.unique_in Z.eqb LogEntry.departure_time e _) eqn:Ud;
    [|discriminate].
  destruct (LogEntry.unique_in Z.eqb LogEntry.arrival_time e _) eqn:Ua;
    [|discriminate].
  intros _.
  assert (Hin : In o (others LogEntry.id e (logentry_table w)))
    by now apply others_In.
  destruct Hdup as [E | E].
  - now apply (unique_in_true _ _ _ _ Z.eqb_eq Ud o Hin).
  - now apply (unique_in_true _ _ _ _ Z.eqb_eq Ua o Hin).
Qed.

Lemma upsert_keeps {A} (pk : A -> Z) (x o : A) (rows : list A) :
  In o rows -> pk o <> pk x -> In o (upsert pk x rows).
Proof.
  intros Ho Hne. unfold upsert. destruct (existsb _ rows).
  - apply in_map_iff. exists o. split; trivial.
    now destruct (Z.eqb_spec (pk o) (pk x)).
  - apply in_or_app. now left.
Qed.

(** X13. After a save of a log entry that returns, the entry is among the
    flights handed to the currency evaluator for its aircraft, under every
    aircraft with that id; the stored entries with another id are those
    that were stored before; and no other stored entry has the id of the
    saved one. *)
Theorem saved_flight_reaches_the_evaluator
    (w w' : World) (e : LogEntry.t) (a : Aircraft.t) :
  LogEntry_save e w = (Return tt, w') ->
  Aircraft.id a = LogEntry.aircraft e ->
  In e (entries_of_aircraft (logentry_table w') a)
  /\ (forall o, LogEntry.id o <> LogEntry.id e ->
                (In o (logentry_table w') <-> In o (logentry_table w)))
  /\ (forall o, In o (logentry_table w') -> LogEntry.id o = LogEntry.id e -> o = e).
Proof.
  unfold LogEntry_save. destruct (LogEntry_violation e _); [discriminate|].
  intros [= <-] Ha. cbn [logentry_table set_tables]. split; [|split].
  - apply entries_of_aircraft_In. split; [apply upsert_has | now rewrite Ha].
  - intros o Hne. split.
    + intros Ho. apply upsert_In in Ho as [-> | (Ho & _)]; [contradiction | trivial].
    + intros Ho. now apply upsert_keeps.
  - intros o Ho Hid. apply upsert_In in Ho as [-> | (_ & Hne)]; [trivial | contradiction].
Qed.

(** ** Instances of these theorems on the sample stores *)

Lemma stored_certificate_valid_on_issue_date_witness :
  let issued := PyDate.mkdate 2020 1 1 in
  let w := after [SaveCertificate rating_2022] (empty_world (fun _ => issued)) in
  In rating_2022 (certificate_table w)
  /\ clock w (reads w) = Certificate.issue_date rating_2022
  /\ ~ has_superseder (certificate_table w) rating_2022
  /\ PyDate.gtb (PyDate.mkdate 2023 6 1) (Certificate.issue_date rating_2022) = true
  /\ exists w', Certificate_valid rating_2022 w = (Return true, w').
Proof.
  intros issued w.
  assert (Hin : In rating_2022 (certificate_table w)) by (simpl; auto).
  assert (Hclock : clock w (reads w) = Certificate.issue_date rating_2022)
    by reflexivity.
  assert (Hfree : ~ has_superseder (certificate_table w) rating_2022)
    by (intros (o & [<- | []] & H); discriminate).
  destruct (stored_certificate_valid_on_issue_date
              (fun _ => issued) [SaveCertificate rating_2022] rating_2022 Hin)
    as (Hafter & Hvalid).
  split; [exact Hin|]. split; [exact Hclock|]. split; [exact Hfree|].
  split; [exact (Hafter (PyDate.mkdate 2023 6 1) eq_refl)|].
  exact (Hvalid Hclock Hfree).
Defined.

Lemma stored_log_entries_satisfy_checks_witness :
  let e := flight_of_pilot_1 in
  LogEntry.departure_time e < LogEntry.arrival_time e
  /\ LogEntry.copilot e <> Some (LogEntry.pilot e)
  /\ (LogEntry.cross_country e = true -> LogEntry.time_function e = PIC).
Proof.
  intros e.
  apply (stored_log_entries_satisfy_checks (fun _ => new_year_2024)
           [SaveLogEntry flight_of_pilot_1] e).
  simpl. auto.
Defined.

Lemma saved_renewal_supersedes_witness :
  let w := after [SaveCertificate rating_2022] (empty_world (fun _ => new_year_2024)) in
  let w' := snd (Certificate_save rating_2023 w) in
  Certificate_superseded_by rating_2022 w' = (Return (Some rating_2023), w')
  /\ (exists w'', Certificate_valid rating_2022 w' = (Return false, w''))
  /\ forall limit,
       ~ In rating_2022 (expiring_certificates (certificate_table w') limit).
Proof.
  intros w w'.
  apply (saved_renewal_supersedes (fun _ => new_year_2024)
           [SaveCertificate rating_2022] rating_2023 rating_2022 w');
    reflexivity.
Defined.

Lemma second_superseder_is_rejected_witness :
  let w := world_on new_year_2024 [rating_2022; rating_2023] [] in
  let c := sample_certificate 9 "Rating" (Some (PyDate.mkdate 2025 6 1)) (Some 4) in
  exists constraint, Certificate_save c w = (Raise (IntegrityError constraint), w).
Proof.
  intros w c.
  apply (second_superseder_is_rejected w c rating_2023 4).
  - simpl. auto.
  - discriminate.
  - reflexivity.
  - reflexivity.
Defined.

Lemma warnings_count_between_0_and_92_days_witness :
  let w := world_on new_year_2024 medicals [] in
  let today := new_year_2024 in
  exists limit new w',
    PyDate.add today EXPIRY_WARNING_THRESHOLD = Some limit
    /\ check_certificates_expiry w = (Return tt, w')
    /\ storage w' = storage w ++ new
    /\ Forall2
         (fun c m =>
            exists vu,
              Certificate.valid_until c = Some vu
              /\ ((PyDate.toordinal vu < PyDate.toordinal today
                   /\ m = mkMessage ERROR (expired_text c))
                  \/ exists days,
                       0 <= days <= 92
                       /\ PyDate.toordinal vu = PyDate.toordinal today + days
                       /\ m = mkMessage WARNING (expires_text c days)))
         (expiring_certificates (certificate_table w) limit) new.
Proof.
  intros w today.
  apply (warnings_count_between_0_and_92_days w today).
  - intros k. reflexivity.
  - reflexivity.
  - left. reflexivity.
  - intros c vu [<- | [<- | [<- | []]]] [= <-]; reflexivity.
Defined.

Lemma one_message_per_eligible_certificate_witness :
  let rows := medicals ++ [rating_2022; rating_2023; licence] in
  let w := world_on new_year_2024 rows [] in
  let limit := PyDate.mkdate 2024 4 1 in
  List.length (filter (eligible rows limit) rows) = 3%nat
  /\ exists new w',
       check_certificates_expiry w = (Return tt, w')
       /\ storage w' = storage w ++ new
       /\ List.length new
          = List.length (filter (eligible (certificate_table w) limit)
                           (certificate_table w))
       /\ (new = [] <->
           forall c, In c (certificate_table w) ->
                     Certificate.valid_until c = None
                     \/ (exists vu, Certificate.valid_until c = Some vu
                                    /\ PyDate.leb vu limit = false)
                     \/ has_superseder (certificate_table w) c).
Proof.
  intros rows w limit. split; [reflexivity|].
  apply (one_message_per_eligible_certificate w limit). reflexivity.
Defined.

Lemma validity_is_only_lost_with_time_witness :
  let w1 := world_on new_year_2024 [medical_february] [] in
  let w2 := world_on (PyDate.mkdate 2024 1 15) [medical_february] [] in
  fst (Certificate_valid medical_february w1) = Return true.
Proof.
  intros w1 w2.
  apply (validity_is_only_lost_with_time w1 w2 medical_february); reflexivity.
Defined.

Lemma view_run_twice_repeats_its_messages_witness :
  let w := world_on new_year_2024 medicals [] in
  let today := new_year_2024 in
  let limit := PyDate.mkdate 2024 4 1 in
  exists new w1 w2,
    check_certificates_expiry w = (Return tt, w1)
    /\ check_certificates_expiry w1 = (Return tt, w2)
    /\ storage w1 = storage w ++ new
    /\ storage w2 = storage w ++ new ++ new
    /\ Forall2 (notice_of today)
         (expiring_certificates (certificate_table w) limit) new.
Proof.
  intros w today limit.
  apply (view_run_twice_repeats_its_messages w today limit).
  - intros k. reflexivity.
  - reflexivity.
Defined.

Lemma constraints_admit_a_cycle_witness :
  certificate_table
    (after [SaveCertificate (without_supersedes cycle_b); SaveCertificate cycle_a;
            SaveCertificate cycle_b] (empty_world (fun _ => new_year_2024)))
  = [cycle_b; cycle_a].
Proof.
  apply (constraints_admit_a_cycle (fun _ => new_year_2024) cycle_a cycle_b).
  - discriminate.
  - reflexivity.
  - reflexivity.
  - reflexivity.
  - reflexivity.
Defined.

Lemma bad_log_entry_is_rejected_witness :
  let w := world_on new_year_2024 [] [flight_of_pilot_1] in
  let e := sample_flight 3 7 1 1000 5000 in
  exists constraint, LogEntry_save e w = (Raise (IntegrityError constraint), w).
Proof.
  intros w e. apply (bad_log_entry_is_rejected w e).
  right. exists flight_of_pilot_1. split; [simpl; auto|].
  split; [discriminate | left; reflexivity].
Defined.

Lemma saved_flight_reaches_the_evaluator_witness :
  let w := world_on new_year_2024 [] [flight_of_pilot_2] in
  let e := flight_of_pilot_1 in
  let a := sample_aircraft 7 true in
  let w' := snd (LogEntry_save e w) in
  In e (entries_of_aircraft (logentry_table w') a)
  /\ (forall o, LogEntry.id o <> LogEntry.id e ->
                (In o (logentry_table w') <-> In o (logentry_table w)))
  /\ (forall o, In o (logentry_table w') -> LogEntry.id o = LogEntry.id e -> o = e).
Proof.
  intros w e a w'.
  apply (saved_flight_reaches_the_evaluator w w' e a); reflexivity.
Defined.

(** ** The end of the calendar *)

Lemma add_three_months_overflows (today : date) :
  PyDate.wf today = true ->
  PyDate.year today = PyDate.MAXYEAR -> 10 <= PyDate.month today ->
  PyDate.add today EXPIRY_WARNING_THRESHOLD = None.
Proof.
  intros Hwf Hy Hm. apply wf_bounds in Hwf as (_ & Hmonth & _).
  destruct today as [y m d]. cbn [PyDate.year PyDate.month] in *.
  unfold PyDate.MAXYEAR in Hy. subst y.
  unfold PyDate.add, EXPIRY_WARNING_THRESHOLD, PyDate.MINYEAR, PyDate.MAXYEAR.
  cbn [PyDate.year PyDate.month PyDate.day PyDate.years PyDate.months].
  destruct Hmonth as [->|[->|[->|[->|[->|[->|[->|[->|[->|[->|[->| ->]]]]]]]]]]];
    try lia; reflexivity.
Qed.

(** X14. For a date of the calendar on the clock, the view raises
    [ValueError], before it adds any message, exactly in the last three
    months of year 9999, when three months later is past the last year of
    [datetime.date]; on every other date it returns. *)
Theorem view_raises_only_at_the_end_of_the_calendar (w : World) (today : date) :
  clock w (reads w) = today ->
  PyDate.wf today = true ->
  (PyDate.year today = PyDate.MAXYEAR /\ 10 <= PyDate.month today ->
   check_certificates_expiry w = (Raise ValueError, tick w))
  /\ (~ (PyDate.year today = PyDate.MAXYEAR /\ 10 <= PyDate.month today) ->
      exists w', check_certificates_expiry w = (Return tt, w')).
Proof.
  intros Ht Hwf. split.
  - intros (Hy & Hm). apply check_certificates_expiry_raises. rewrite Ht.
    now apply add_three_months_overflows.
  - intros Hn.
    assert (Hov : PyDate.year today < PyDate.MAXYEAR \/ PyDate.month today <= 9).
    { pose proof (wf_bounds today Hwf) as (Hy & _).
      unfold PyDate.MAXYEAR in *. lia. }
    destruct (three_months_ahead today Hwf Hov) as (limit & Hl & _).
    rewrite <- Ht in Hl. eexists.
    exact (check_certificates_expiry_run w limit Hl).
Qed.

Lemma view_raises_only_at_the_end_of_the_calendar_witness :
  let today := PyDate.mkdate 9999 10 1 in
  let w := world_on today medicals [] in
  (PyDate.year today = PyDate.MAXYEAR /\ 10 <= PyDate.month today ->
   check_certificates_expiry w = (Raise ValueError, tick w))
  /\ (~ (PyDate.year today = PyDate.MAXYEAR /\ 10 <= PyDate.month today) ->
      exists w', check_certificates_expiry w = (Return tt, w')).
Proof.
  intros today w.
  apply (view_raises_only_at_the_end_of_the_calendar w today); reflexivity.
Defined.
